(** * Aravis network layer: address classification, interface enumeration,
      GigE Vision port range and range-restricted socket binding.

    Shallow embedding of the network part of [src/arvcamera.c]
    ([arv_enumerate_network_interfaces], [arv_network_get_fake_ipv4_loopback],
    [arv_network_interface_is_loopback], [arv_set_gv_port_range],
    [arv_set_gv_port_range_from_string], [arv_socket_bind_with_range]),
    of the lookups [arv_network_get_interface_by_name] and
    [arv_network_get_interface_by_address], of
    [arv_socket_set_recv_buffer_size], of the Windows variant of the
    enumeration, and of the region, binning, gain and payload functions of
    the camera facade.

    Conventions.
    - C unsigned integers are [Z] with the wrap-around written out
      ([guint16], [guint32], [guint64]).
    - Addresses are kept as the bytes they occupy in memory, in network
      order; [htonl] and [ntohl] convert between a host number and that
      memory image.
    - The three file-scope variables [arv_port_minimum], [arv_port_maximum],
      [arv_last_port_offset] are the record [port_range], passed in and out
      of every function that touches them.  The functions run under
      [arv_port_mutex], so each call is one atomic step on that record.
    - The operating system is a state [OS] with one operation
      [g_socket_bind]; [arv_socket_bind_with_range] threads it and records
      the calls it makes.
    - The regular expression of [arv_set_gv_port_range_from_string] is
      matched as GRegex matches it; what the engine reads from its Unicode
      tables (digits outside ASCII, newline sequences other than the line
      feed) is the parameter [regex_tables]. *)

From Stdlib Require Import ZArith List String Ascii Bool Lia.
From Stdlib Require Import DecimalString DecimalPos DecimalN.
Import ListNotations.
Open Scope Z_scope.

(* ===================================================================== *)
(** * Part I. Definitions                                                 *)
(* ===================================================================== *)

(** ** Machine integers *)

Definition guint16 (x : Z) : Z := x mod 2 ^ 16.
Definition guint32 (x : Z) : Z := x mod 2 ^ 32.
Definition G_MAXUINT64 : Z := 2 ^ 64 - 1.

Definition is_guint16 (x : Z) : Prop := 0 <= x <= 65535.

(** ** Socket addresses and interface descriptors *)

Inductive sa_family_t : Type :=
| AF_INET
| AF_INET6
| AF_OTHER (family : Z).

Definition sa_family_eqb (f g : sa_family_t) : bool :=
  match f, g with
  | AF_INET, AF_INET => true
  | AF_INET6, AF_INET6 => true
  | AF_OTHER m, AF_OTHER n => m =? n
  | _, _ => false
  end.

(** [struct sockaddr], seen through the casts the code applies to it:
    [sa_family] selects the layout, [sa_addr] holds the bytes of
    [sin_addr] (4 bytes) or [sin6_addr] (16 bytes) in memory order, that is
    network order.  [sa_len] exists on the BSDs and macOS only and is read
    only by the branch compiled there. *)
Record sockaddr : Type := mk_sockaddr {
  sa_len : Z;
  sa_family : sa_family_t;
  sa_addr : list Z
}.

(** [struct _ArvNetworkInterface]: four pointers, each possibly [NULL]. *)
Record ArvNetworkInterface : Type := mk_interface {
  addr : option sockaddr;
  netmask : option sockaddr;
  broadaddr : option sockaddr;
  name : option string
}.

(** Memory image of [htonl x] stored in a 32-bit field: most significant
    byte first. *)
Definition htonl (x : Z) : list Z :=
  [Z.land (Z.shiftr x 24) 255; Z.land (Z.shiftr x 16) 255;
   Z.land (Z.shiftr x 8) 255; Z.land x 255].

(** [ntohl] of a 32-bit field read from memory; [None] when the field is
    not all there. *)
Definition ntohl (bytes : list Z) : option Z :=
  match bytes with
  | b0 :: b1 :: b2 :: b3 :: _ =>
      Some (Z.lor (Z.shiftl b0 24) (Z.lor (Z.shiftl b1 16) (Z.lor (Z.shiftl b2 8) b3)))
  | _ => None
  end.

(** ** [arv_network_get_fake_ipv4_loopback] *)

(** [g_malloc0 (sizeof (struct sockaddr_in))] followed by the assignments of
    [sa_family] and [sin_addr.s_addr]: every other field stays zero. *)
Definition fake_sockaddr_in (host_order : Z) : sockaddr :=
  {| sa_len := 0; sa_family := AF_INET; sa_addr := htonl host_order |}.

Definition arv_network_get_fake_ipv4_loopback : ArvNetworkInterface :=
  {| name := Some "<fake IPv4 localhost>"%string;
     addr := Some (fake_sockaddr_in 0x7f000001);
     netmask := Some (fake_sockaddr_in 0xff000000);
     broadaddr := Some (fake_sockaddr_in 0x7fffffff) |}.

(** ** [arv_network_interface_is_loopback] *)

(** What a call does: it returns a boolean, or it reads [i6[pos]] with
    [pos] outside the address bytes, or it dereferences a [NULL] [addr]. *)
Inductive loopback_result : Type :=
| Returns (b : bool)
| ReadsOutOfBounds (pos : nat)
| NullAddr.

(** [for (pos=0; pos<16; pos++) if (i6[pos]!=0) return FALSE;] with [n]
    iterations left.  [None]: the loop ran to its end without returning. *)
Fixpoint i6_loop (i6 : list Z) (pos : nat) (n : nat) : option loopback_result :=
  match n with
  | O => None
  | S n' =>
      match nth_error i6 pos with
      | None => Some (ReadsOutOfBounds pos)
      | Some b =>
          if negb (b =? 0) then Some (Returns false)
          else i6_loop i6 (S pos) n'
      end
  end.

Definition is_loopback_in6 (i6 : list Z) : loopback_result :=
  match i6_loop i6 0 16 with
  | Some r => r
  | None =>
      match nth_error i6 16 with
      | None => ReadsOutOfBounds 16
      | Some b => if negb (b =? 1) then Returns false else Returns true
      end
  end.

Definition is_loopback_in (s_addr : list Z) : loopback_result :=
  match ntohl s_addr with
  | None => ReadsOutOfBounds (List.length s_addr)
  | Some host_order => Returns (Z.shiftr host_order 24 =? 0x7f)
  end.

Definition arv_network_interface_is_loopback (a : option ArvNetworkInterface)
  : loopback_result :=
  match a with
  | None => Returns false
  | Some a =>
      match addr a with
      | None => NullAddr
      | Some sa =>
          match sa_family sa with
          | AF_INET => is_loopback_in (sa_addr sa)
          | AF_INET6 => is_loopback_in6 (sa_addr sa)
          | AF_OTHER _ => Returns false
          end
      end
  end.

(** ** [arv_enumerate_network_interfaces], POSIX variant *)

(** One node of the list [getifaddrs] fills in; [ifa_next] is the list
    structure itself. *)
Record ifaddrs : Type := mk_ifaddrs {
  ifa_name : option string;
  ifa_flags : Z;
  ifa_addr : option sockaddr;
  ifa_netmask : option sockaddr;
  ifa_broadaddr : option sockaddr
}.

Definition IFF_UP : Z := 1.

(** The preprocessor condition
    [(defined(__APPLE__) && defined(__MACH__)) || defined(BSD)]. *)
Inductive posix_build : Type :=
| Build_BSD_or_Darwin
| Build_other_POSIX.

(** The [if] that guards the body of the loop; the accepted [ifa_addr] is
    returned with the verdict. *)
Definition accepted_addr (i : ifaddrs) : option sockaddr :=
  if negb (Z.land (ifa_flags i) IFF_UP =? 0) then
    match ifa_addr i with
    | Some sa => if sa_family_eqb (sa_family sa) AF_INET then Some sa else None
    | None => None
    end
  else None.

(** The two branches that fill [a->broadaddr].  [arv_memdup] copies the
    record it is given. *)
Definition enumerated_broadaddr (build : posix_build) (i : ifaddrs) (sa : sockaddr)
  : option sockaddr :=
  match build with
  | Build_BSD_or_Darwin =>
      match ifa_broadaddr i with
      | Some b => if negb (sa_len b =? 0) then Some b else Some sa
      | None => Some sa
      end
  | Build_other_POSIX =>
      match ifa_broadaddr i with
      | Some b => Some b
      | None => None
      end
  end.

Definition enumerated_interface (build : posix_build) (i : ifaddrs) (sa : sockaddr)
  : ArvNetworkInterface :=
  {| addr := Some sa;
     netmask := ifa_netmask i;
     broadaddr := enumerated_broadaddr build i sa;
     name := ifa_name i |}.

(** The [for] loop over [ifap], with [ret] built by [g_list_prepend]. *)
Fixpoint enumerate_loop (build : posix_build) (ifap : list ifaddrs)
  (ret : list ArvNetworkInterface) : list ArvNetworkInterface :=
  match ifap with
  | [] => ret
  | i :: ifa_next =>
      match accepted_addr i with
      | Some sa => enumerate_loop build ifa_next (enumerated_interface build i sa :: ret)
      | None => enumerate_loop build ifa_next ret
      end
  end.

(** [getifaddrs] is the argument: [None] when it fails, the list it fills
    in otherwise. *)
Definition arv_enumerate_network_interfaces (build : posix_build)
  (getifaddrs : option (list ifaddrs)) : list ArvNetworkInterface :=
  match getifaddrs with
  | None => []
  | Some ifap => rev (enumerate_loop build ifap [])
  end.

(** ** The port range: [arv_port_minimum], [arv_port_maximum],
       [arv_last_port_offset] *)

Record port_range : Type := mk_port_range {
  arv_port_minimum : Z;
  arv_port_maximum : Z;
  arv_last_port_offset : Z
}.

(** The static initialisers. *)
Definition port_range_init : port_range :=
  {| arv_port_minimum := 0; arv_port_maximum := 0; arv_last_port_offset := 0 |}.

(** [arv_set_gv_port_range], with GLib's checks compiled in (the default):
    [g_return_val_if_fail (min <= max, FALSE)] returns before the variables
    are touched.  [min] and [max] are [guint16] parameters. *)
Definition arv_set_gv_port_range (min max : Z) (st : port_range) : bool * port_range :=
  if negb (min <=? max) then (false, st)
  else
    (true,
     {| arv_port_minimum := min;
        arv_port_maximum := max;
        arv_last_port_offset := guint32 (max - min) |}).

(** ** [arv_set_gv_port_range_from_string] *)

Definition is_digit (c : ascii) : bool :=
  ((48 <=? nat_of_ascii c) && (nat_of_ascii c <=? 57))%nat.

Definition digit_value (c : ascii) : Z := Z.of_nat (nat_of_ascii c) - 48.

(** What the regular expression engine takes from its Unicode tables.  The
    pattern is compiled without [G_REGEX_RAW], [G_REGEX_DOLLAR_ENDONLY] or a
    newline flag, so the subject is read as UTF-8, [\d] matches the
    decimal digits of Unicode, and [$] also matches before a newline that
    ends the subject.  The ASCII digits and the line feed are written out
    below; the rest comes from the engine:
    - [nd_length s], asked when [s] starts with a byte outside ASCII: the
      number of bytes of the decimal digit character [s] starts with, 0 when
      it starts with none;
    - [newline_other s]: whether [s] is one newline sequence other than the
      line feed alone. *)
Record regex_tables : Type := mk_regex_tables {
  nd_length : string -> nat;
  newline_other : string -> bool
}.

Definition LF : string := String "010"%char EmptyString.

Definition is_ascii_char (c : ascii) : bool := (nat_of_ascii c <? 128)%nat.

(** The first [n] bytes of [s], and the rest. *)
Fixpoint split_at (n : nat) (s : string) : string * string :=
  match n, s with
  | S n', String c s' => let (a, b) := split_at n' s' in (String c a, b)
  | _, _ => (EmptyString, s)
  end.

(** [\d] at the front of [s]: the character it matches, and what follows. *)
Definition match_digit (T : regex_tables) (s : string) : option (string * string) :=
  match s with
  | EmptyString => None
  | String c rest =>
      if is_digit c then Some (String c EmptyString, rest)
      else if is_ascii_char c then None
      else
        match nd_length T s with
        | O => None
        | S n => Some (split_at (S n) s)
        end
  end.

(** The greedy [[\d]+] (or nothing): digit characters are taken as long as
    there is one, at most [fuel] of them; each takes at least one byte, so
    the length of the subject is fuel enough. *)
Fixpoint match_digits (fuel : nat) (T : regex_tables) (s : string) : string * string :=
  match fuel with
  | O => (EmptyString, s)
  | S fuel' =>
      match match_digit T s with
      | None => (EmptyString, s)
      | Some (c, rest) =>
          let (g, after) := match_digits fuel' T rest in ((c ++ g)%string, after)
      end
  end.

Definition string_is_empty (s : string) : bool :=
  match s with EmptyString => true | _ => false end.

(** [$]: the end of the subject, or one newline that ends it. *)
Definition matches_dollar (T : regex_tables) (rest : string) : bool :=
  string_is_empty rest || String.eqb rest LF || newline_other T rest.

(** [g_regex_match] for the pattern [^([\d]+)-([\d]+)$], returning the two
    captured groups.  Neither a digit character nor a newline is a dash, so
    the greedy runs are the only way to match. *)
Definition g_regex_match_range (T : regex_tables) (subject : string)
  : option (string * string) :=
  let (g1, after1) := match_digits (String.length subject) T subject in
  if string_is_empty g1 then None
  else
    match after1 with
    | String c after_dash =>
        if Ascii.eqb c "-" then
          let (g2, after2) := match_digits (String.length after_dash) T after_dash in
          if string_is_empty g2 then None
          else if matches_dollar T after2 then Some (g1, g2)
          else None
        else None
    | EmptyString => None
    end.

(** [g_ascii_strtoull (s, NULL, 10)] on a captured group (no white space
    or sign at its front): the ASCII digits are accumulated up to the first
    other byte, 0 when there is none, and the result saturates at
    [G_MAXUINT64]. *)
Fixpoint strtoull_acc (s : string) (acc : Z) : Z :=
  match s with
  | EmptyString => acc
  | String c s' =>
      if is_digit c then strtoull_acc s' (acc * 10 + digit_value c)
      else acc
  end.

Definition g_ascii_strtoull (s : string) : Z :=
  Z.min (strtoull_acc s 0) G_MAXUINT64.

(** The body after the regular expression has run: [m] is [None] when
    [success] is [FALSE], the two groups otherwise.  [min] and [max] are
    [guint16] variables, so the assignment reduces the parsed number. *)
Definition set_range_from_match (m : option (string * string)) (st : port_range)
  : bool * port_range :=
  match m with
  | Some (g1, g2) =>
      let min := guint16 (g_ascii_strtoull g1) in
      let max := guint16 (g_ascii_strtoull g2) in
      if min >? max then (false, st)
      else arv_set_gv_port_range min max st
  | None => (false, st)
  end.

(** [range] is a C string pointer; [None] is [NULL]. *)
Definition arv_set_gv_port_range_from_string (T : regex_tables) (range : option string)
  (st : port_range) : bool * port_range :=
  match range with
  | None => (false, st)
  | Some subject => set_range_from_match (g_regex_match_range T subject) st
  end.

(** The pair [(min, max)] the function computes from its argument, when the
    regular expression matches. *)
Definition parsed_pair (T : regex_tables) (subject : string) : option (Z * Z) :=
  match g_regex_match_range T subject with
  | Some (g1, g2) => Some (guint16 (g_ascii_strtoull g1), guint16 (g_ascii_strtoull g2))
  | None => None
  end.

(** The pattern in words: a non-empty run of digits, a dash, a non-empty
    run of digits, and nothing else. *)
Fixpoint all_digits (s : string) : bool :=
  match s with
  | EmptyString => true
  | String c s' => is_digit c && all_digits s'
  end.

Definition is_number (s : string) : Prop :=
  s <> EmptyString /\ all_digits s = true.




(** Engine tables to run the function on: none beyond ASCII and the line
    feed; and a sample with the Arabic-Indic digits U+0660 to U+0669 (the
    bytes D9 A0 to D9 A9) as the digits outside ASCII and, as newlines, the
    sequences of the engine's any-newline convention, which GRegex selects
    when no newline flag is given: CR, CR LF, VT, FF, U+0085, U+2028 and
    U+2029. *)
Definition ascii_tables : regex_tables :=
  {| nd_length := fun _ => O; newline_other := fun _ => false |}.

Definition arabic_indic_length (s : string) : nat :=
  match s with
  | String c1 (String c2 _) =>
      if ((nat_of_ascii c1 =? 217) && (160 <=? nat_of_ascii c2)
          && (nat_of_ascii c2 <=? 169))%nat then 2%nat else O
  | _ => O
  end.

Definition CR : string := String "013"%char EmptyString.

Definition any_newline_other (s : string) : bool :=
  String.eqb s CR || String.eqb s (CR ++ LF)
  || String.eqb s (String "011" EmptyString)
  || String.eqb s (String "012" EmptyString)
  || String.eqb s (String "194" (String "133" EmptyString))
  || String.eqb s (String "226" (String "128" (String "168" EmptyString)))
  || String.eqb s (String "226" (String "128" (String "169" EmptyString))).

Definition sample_tables : regex_tables :=
  {| nd_length := arabic_indic_length; newline_other := any_newline_other |}.

(** ** Errors *)

Inductive GQuark : Type :=
| G_IO_ERROR
| ARV_NETWORK_ERROR
| G_OTHER_DOMAIN (quark : Z).

Inductive GErrorCode : Type :=
| G_IO_ERROR_ADDRESS_IN_USE
| ARV_NETWORK_ERROR_PORT_EXHAUSTION
| G_OTHER_CODE (code : Z).

Record GError : Type := mk_GError {
  domain : GQuark;
  code : GErrorCode;
  message : string
}.

(** The negation of
    [local_error->domain != G_IO_ERROR || local_error->code != G_IO_ERROR_ADDRESS_IN_USE]. *)
Definition is_address_in_use (e : GError) : bool :=
  match domain e, code e with
  | G_IO_ERROR, G_IO_ERROR_ADDRESS_IN_USE => true
  | _, _ => false
  end.

(** [%u] *)
Definition format_u (x : Z) : string :=
  NilEmpty.string_of_uint (N.to_uint (Z.to_N x)).

Definition port_exhaustion_error (st : port_range) : GError :=
  {| domain := ARV_NETWORK_ERROR;
     code := ARV_NETWORK_ERROR_PORT_EXHAUSTION;
     message := ("No more available port in range [" ++ format_u (arv_port_minimum st)
                 ++ ".." ++ format_u (arv_port_maximum st) ++ "]")%string |}.

(** ** [arv_socket_bind_with_range] *)

Inductive bind_reply : Type :=
| BindOk
| BindFailed (local_error : option GError).

Section SocketLayer.

(** [GSocket], [GInetAddress], and the state of the operating system that
    [g_socket_bind] reads and changes. *)
Variables GSocket GInetAddress OS : Type.

(** [g_inet_socket_address_new (address, port)] *)
Record GSocketAddress : Type := mk_GSocketAddress {
  sock_address : GInetAddress;
  sock_port : Z
}.

Variable g_socket_bind : OS -> GSocket -> GSocketAddress -> bool -> OS * bind_reply.

(** What one call leaves behind: the three variables, the operating
    system, the returned pointer, what was stored through [error], and the
    calls of [g_socket_bind] it made, in order, each with its reply. *)
Record bind_run : Type := mk_bind_run {
  run_range : port_range;
  run_os : OS;
  run_ret : option GSocketAddress;
  run_error : option GError;
  run_calls : list (GSocketAddress * bind_reply)
}.

Definition record_call (c : GSocketAddress * bind_reply) (r : bind_run) : bind_run :=
  {| run_range := run_range r; run_os := run_os r; run_ret := run_ret r;
     run_error := run_error r; run_calls := c :: run_calls r |}.

(** The first branch: [port != 0], or no range configured. *)
Definition bind_direct (socket : GSocket) (address : GInetAddress) (port : Z)
  (allow_reuse : bool) (st : port_range) (os : OS) : bind_run :=
  let socket_address := {| sock_address := address; sock_port := port |} in
  let (os', reply) := g_socket_bind os socket socket_address allow_reuse in
  {| run_range := st;
     run_os := os';
     run_ret := match reply with BindOk => Some socket_address | BindFailed _ => None end;
     run_error := match reply with BindOk => None | BindFailed e => e end;
     run_calls := [(socket_address, reply)] |}.

(** [arv_last_port_offset = (arv_last_port_offset + 1) % (arv_port_maximum - arv_port_minimum + 1)],
    in [guint32] arithmetic. *)
Definition advance_offset (st : port_range) : port_range :=
  {| arv_port_minimum := arv_port_minimum st;
     arv_port_maximum := arv_port_maximum st;
     arv_last_port_offset :=
       guint32 (arv_last_port_offset st + 1)
         mod guint32 (arv_port_maximum st - arv_port_minimum st + 1) |}.

(** The port given to [g_inet_socket_address_new], a [guint16] parameter. *)
Definition candidate_port (st : port_range) : Z :=
  guint16 (guint32 (arv_port_minimum st + arv_last_port_offset st)).

(** The [for] loop with [n] iterations left.  The bound
    [arv_port_maximum - arv_port_minimum] does not change inside the loop,
    so the loop runs its body for [i = 0 .. bound] unless it returns. *)
Fixpoint bind_scan (n : nat) (socket : GSocket) (address : GInetAddress)
  (allow_reuse : bool) (st : port_range) (os : OS) : bind_run :=
  match n with
  | O =>
      {| run_range := st; run_os := os; run_ret := None;
         run_error := Some (port_exhaustion_error st); run_calls := [] |}
  | S n' =>
      let st1 := advance_offset st in
      let socket_address := {| sock_address := address; sock_port := candidate_port st1 |} in
      let (os1, reply) := g_socket_bind os socket socket_address allow_reuse in
      match reply with
      | BindOk =>
          {| run_range := st1; run_os := os1; run_ret := Some socket_address;
             run_error := None; run_calls := [(socket_address, reply)] |}
      | BindFailed (Some local_error) =>
          if negb (is_address_in_use local_error) then
            {| run_range := st1; run_os := os1; run_ret := None;
               run_error := Some local_error; run_calls := [(socket_address, reply)] |}
          else
            record_call (socket_address, reply)
              (bind_scan n' socket address allow_reuse st1 os1)
      | BindFailed None =>
          record_call (socket_address, reply)
            (bind_scan n' socket address allow_reuse st1 os1)
      end
  end.

(** Number of times the loop condition [i <= arv_port_maximum - arv_port_minimum]
    holds, for [i] counting up from 0.  (Were the bound [2^32 - 1], the
    modulus in the loop body would be 0; no call of [arv_set_gv_port_range]
    leaves the variables so, see [range_ok].) *)
Definition scan_length (st : port_range) : nat :=
  Z.to_nat (guint32 (arv_port_maximum st - arv_port_minimum st) + 1).

Definition range_disabled (st : port_range) : bool :=
  (arv_port_minimum st =? 0) && (arv_port_maximum st =? 0).

Definition arv_socket_bind_with_range (socket : GSocket) (address : GInetAddress)
  (port : Z) (allow_reuse : bool) (st : port_range) (os : OS) : bind_run :=
  if negb (port =? 0) || range_disabled st then
    bind_direct socket address port allow_reuse st os
  else
    bind_scan (scan_length st) socket address allow_reuse st os.

(** A sequence of calls.  Each one starts with the three variables as the
    one before left them, and meets the operating system in the state it
    is in at that time. *)
Record bind_request : Type := mk_bind_request {
  rq_socket : GSocket;
  rq_address : GInetAddress;
  rq_port : Z;
  rq_allow_reuse : bool;
  rq_os : OS
}.

Definition bind_request_run (rq : bind_request) (st : port_range) : bind_run :=
  arv_socket_bind_with_range (rq_socket rq) (rq_address rq) (rq_port rq)
    (rq_allow_reuse rq) st (rq_os rq).

Fixpoint bind_sequence (rqs : list bind_request) (st : port_range) : port_range :=
  match rqs with
  | [] => st
  | rq :: rqs' => bind_sequence rqs' (run_range (bind_request_run rq st))
  end.

(** The ports of the calls a run made, and the ports it returned. *)
Definition called_ports (r : bind_run) : list Z :=
  map (fun c => sock_port (fst c)) (run_calls r).

Definition returned_port (r : bind_run) : option Z :=
  match run_ret r with
  | Some sa => Some (sock_port sa)
  | None => None
  end.

End SocketLayer.

Arguments mk_GSocketAddress {GInetAddress}.
Arguments sock_address {GInetAddress}.
Arguments sock_port {GInetAddress}.
Arguments run_range {GInetAddress OS}.
Arguments run_os {GInetAddress OS}.
Arguments run_ret {GInetAddress OS}.
Arguments run_error {GInetAddress OS}.
Arguments run_calls {GInetAddress OS}.
Arguments record_call {GInetAddress OS}.
Arguments mk_bind_run {GInetAddress OS}.
Arguments called_ports {GInetAddress OS}.
Arguments returned_port {GInetAddress OS}.
Arguments arv_socket_bind_with_range {GSocket GInetAddress OS}.
Arguments bind_scan {GSocket GInetAddress OS}.
Arguments bind_direct {GSocket GInetAddress OS}.
Arguments bind_sequence {GSocket GInetAddress OS}.
Arguments bind_request_run {GSocket GInetAddress OS}.
Arguments mk_bind_request {GSocket GInetAddress OS}.
Arguments rq_socket {GSocket GInetAddress OS}.
Arguments rq_address {GSocket GInetAddress OS}.
Arguments rq_port {GSocket GInetAddress OS}.
Arguments rq_allow_reuse {GSocket GInetAddress OS}.
Arguments rq_os {GSocket GInetAddress OS}.

(** A reply that lets the loop go on to the next candidate. *)
Definition reply_retries (r : bind_reply) : bool :=
  match r with
  | BindOk => false
  | BindFailed None => true
  | BindFailed (Some e) => is_address_in_use e
  end.

(** ** A small operating system to run the binder on

    The state is the list of ports already bound.  Port 0 is always
    granted, binding another port below 1024 is refused with a permission
    error, binding a bound port with [G_IO_ERROR_ADDRESS_IN_USE]; any other
    port becomes bound. *)

Definition in_use_error : GError :=
  {| domain := G_IO_ERROR; code := G_IO_ERROR_ADDRESS_IN_USE;
     message := "Address already in use"%string |}.

Definition permission_error : GError :=
  {| domain := G_IO_ERROR; code := G_OTHER_CODE 14;
     message := "Permission denied"%string |}.

Definition table_bind (bound : list Z) (socket : nat) (sa : @GSocketAddress unit)
  (allow_reuse : bool) : list Z * bind_reply :=
  if sock_port sa =? 0 then (bound, BindOk)
  else if sock_port sa <? 1024 then (bound, BindFailed (Some permission_error))
  else if existsb (Z.eqb (sock_port sa)) bound then (bound, BindFailed (Some in_use_error))
  else (sock_port sa :: bound, BindOk).

(** An operating system on which every bind succeeds. *)
Definition free_bind (os : unit) (socket : nat) (sa : @GSocketAddress unit)
  (allow_reuse : bool) : unit * bind_reply := (tt, BindOk).

(** ** Predicates and sample data used in the statements *)

(** An interface that has just an address of the given family. *)
Definition in_interface (bytes : list Z) : ArvNetworkInterface :=
  {| addr := Some {| sa_len := 0; sa_family := AF_INET; sa_addr := bytes |};
     netmask := None; broadaddr := None; name := None |}.

Definition in6_interface (bytes : list Z) : ArvNetworkInterface :=
  {| addr := Some {| sa_len := 0; sa_family := AF_INET6; sa_addr := bytes |};
     netmask := None; broadaddr := None; name := None |}.

(** The descriptor made for one node, if the node is accepted. *)
Definition descriptor_of (build : posix_build) (i : ifaddrs) : list ArvNetworkInterface :=
  match accepted_addr i with
  | Some sa => [enumerated_interface build i sa]
  | None => []
  end.

(** A node without a broadcast address, as each build tests it. *)
Definition no_broadcast (build : posix_build) (i : ifaddrs) : bool :=
  match build, ifa_broadaddr i with
  | _, None => true
  | Build_BSD_or_Darwin, Some b => sa_len b =? 0
  | Build_other_POSIX, Some _ => false
  end.

(** The loopback interface as [getifaddrs] reports it where the platform
    gives it no broadcast address: up, running, 127.0.0.1/8. *)
Definition sample_lo : ifaddrs :=
  {| ifa_name := Some "lo"%string;
     ifa_flags := 0x49;
     ifa_addr := Some {| sa_len := 16; sa_family := AF_INET; sa_addr := [127; 0; 0; 1] |};
     ifa_netmask := Some {| sa_len := 16; sa_family := AF_INET; sa_addr := [255; 0; 0; 0] |};
     ifa_broadaddr := None |}.

(** What holds of the three variables in every state the program reaches:
    the bounds are 16-bit and ordered, the cursor lies inside the range. *)
Definition range_ok (st : port_range) : Prop :=
  0 <= arv_port_minimum st /\
  arv_port_minimum st <= arv_port_maximum st /\
  arv_port_maximum st <= 65535 /\
  0 <= arv_last_port_offset st <= arv_port_maximum st - arv_port_minimum st.

(** Number of ports in the range. *)
Definition range_size (st : port_range) : Z :=
  arv_port_maximum st - arv_port_minimum st + 1.

(** The [k]-th port a scan tries when it starts with the cursor at
    [arv_last_port_offset st] ([k] counts from 1). *)
Definition nth_candidate (st : port_range) (k : nat) : Z :=
  arv_port_minimum st + (arv_last_port_offset st + Z.of_nat k) mod range_size st.

Section ScanPredicates.

Context {GInetAddress OS : Type}.

(** What a scan of at most [n] candidates that started in [st] has done
    when it stops with [r]: where the cursor is, and which ports it
    tried. *)
Definition scan_post (n : nat) (address : GInetAddress) (st : port_range)
  (r : @bind_run GInetAddress OS) : Prop :=
  range_ok (run_range r) /\
  arv_port_minimum (run_range r) = arv_port_minimum st /\
  arv_port_maximum (run_range r) = arv_port_maximum st /\
  (List.length (run_calls r) <= n)%nat /\
  called_ports r = map (nth_candidate st) (seq 1 (List.length (run_calls r))) /\
  (forall c, In c (run_calls r) -> sock_address (fst c) = address) /\
  arv_last_port_offset (run_range r)
  = (arv_last_port_offset st + Z.of_nat (List.length (run_calls r))) mod range_size st /\
  (forall sa, run_ret r = Some sa ->
     sock_address sa = address /\
     sock_port sa = nth_candidate st (List.length (run_calls r)) /\
     (1 <= List.length (run_calls r))%nat).

Definition retried (c : @GSocketAddress GInetAddress * bind_reply) : Prop :=
  reply_retries (snd c) = true.

(** A scan ends in one of three ways: on the first call that succeeds, on
    the first call that fails with an error other than address-in-use, or
    after [n] calls that all asked for a retry. *)
Definition scan_shape (n : nat) (st : port_range) (r : @bind_run GInetAddress OS) : Prop :=
  (exists pre sa,
      run_calls r = pre ++ [(sa, BindOk)] /\ Forall retried pre /\
      (List.length pre < n)%nat /\ run_ret r = Some sa /\ run_error r = None) \/
  (exists pre sa e,
      run_calls r = pre ++ [(sa, BindFailed (Some e))] /\ is_address_in_use e = false /\
      Forall retried pre /\ (List.length pre < n)%nat /\
      run_ret r = None /\ run_error r = Some e) \/
  (Forall retried (run_calls r) /\ List.length (run_calls r) = n /\
   run_ret r = None /\ run_error r = Some (port_exhaustion_error st)).

End ScanPredicates.

(** The state after [arv_set_gv_port_range 9000 9002], and the state a scan
    of the range 9000..9001 leaves. *)
Definition range_9000_9002 : port_range :=
  {| arv_port_minimum := 9000; arv_port_maximum := 9002; arv_last_port_offset := 2 |}.

Definition range_9000_9001 : port_range :=
  {| arv_port_minimum := 9000; arv_port_maximum := 9001; arv_last_port_offset := 1 |}.

(** Two earlier calls: an automatic one on an idle system, and one for the
    port 12345 made when 9000 is taken. *)
Definition sample_requests : list (bind_request nat unit (list Z)) :=
  [ mk_bind_request 1%nat tt 0 false []; mk_bind_request 2%nat tt 12345 true [9000] ].

(** ** Accessors of [ArvNetworkInterface] *)

Definition arv_network_interface_get_addr (a : ArvNetworkInterface) : option sockaddr :=
  addr a.

Definition arv_network_interface_get_name (a : ArvNetworkInterface) : option string :=
  name a.

(** ** [arv_network_get_interface_by_name], [arv_network_get_interface_by_address] *)

(** [g_strcmp0 (a, b) == 0]: two [NULL]s compare equal, and [NULL] differs
    from every string. *)
Definition g_strcmp0_is_0 (a b : option string) : bool :=
  match a, b with
  | None, None => true
  | Some x, Some y => String.eqb x y
  | _, _ => false
  end.

(** The [for] loop that walks [ifaces] and leaves with [break] at the first
    node passing the test, followed by the unlinking of that node: the
    node's data is returned, [NULL] when the loop ran to the end. *)
Fixpoint iface_search (test : ArvNetworkInterface -> bool)
  (ifaces : list ArvNetworkInterface) : option ArvNetworkInterface :=
  match ifaces with
  | [] => None
  | a :: next => if test a then Some a else iface_search test next
  end.

Definition arv_network_get_interface_by_name (build : posix_build)
  (getifaddrs : option (list ifaddrs)) (name : option string)
  : option ArvNetworkInterface :=
  let ifaces := arv_enumerate_network_interfaces build getifaddrs in
  iface_search (fun a => g_strcmp0_is_0 name (arv_network_interface_get_name a)) ifaces.

(** A [GInetAddress]: the family and the bytes of the address. *)
Record GInetAddressValue : Type := mk_inet {
  inet_family : sa_family_t;
  inet_bytes : list Z
}.

Definition bytes_eqb (a b : list Z) : bool :=
  if list_eq_dec Z.eq_dec a b then true else false.

(** [g_socket_address_new_from_native (native, sizeof (struct sockaddr))]
    followed by [g_inet_socket_address_get_address]: with that length only
    an IPv4 socket address is taken, and its address is the 4 bytes of
    [sin_addr]. *)
Definition inet_address_from_native (native : option sockaddr) : option GInetAddressValue :=
  match native with
  | Some sa =>
      match sa_family sa with
      | AF_INET => Some {| inet_family := AF_INET; inet_bytes := firstn 4 (sa_addr sa) |}
      | _ => None
      end
  | None => None
  end.

(** [g_inet_address_equal]; a [NULL] second argument is answered [FALSE]. *)
Definition g_inet_address_equal (a : GInetAddressValue) (b : option GInetAddressValue) : bool :=
  match b with
  | Some b => sa_family_eqb (inet_family a) (inet_family b)
              && bytes_eqb (inet_bytes a) (inet_bytes b)
  | None => false
  end.

Section ByAddress.

(** GLib's test for an address literal and its parser of one. *)
Variable g_hostname_is_ip_address : string -> bool.
Variable g_inet_socket_address_new_from_string : string -> option GInetAddressValue.

Definition arv_network_get_interface_by_address (build : posix_build)
  (getifaddrs : option (list ifaddrs)) (addr : string) : option ArvNetworkInterface :=
  let ifaces := arv_enumerate_network_interfaces build getifaddrs in
  if negb (g_hostname_is_ip_address addr) then None
  else
    match g_inet_socket_address_new_from_string addr with
    | None => None
    | Some iaddr =>
        iface_search
          (fun a => g_inet_address_equal iaddr
                      (inet_address_from_native (arv_network_interface_get_addr a)))
          ifaces
    end.

End ByAddress.

(** ** Sequences of operations on the port range *)

Section RegistryOps.

Variables GSocket GInetAddress OS : Type.
Variable g_socket_bind : OS -> GSocket -> @GSocketAddress GInetAddress -> bool -> OS * bind_reply.
Variable T : regex_tables.

Inductive registry_op : Type :=
| OpSetRange (min max : Z)
| OpSetRangeFromString (range : option string)
| OpBind (rq : bind_request GSocket GInetAddress OS).

Definition registry_step (op : registry_op) (st : port_range) : port_range :=
  match op with
  | OpSetRange min max => snd (arv_set_gv_port_range min max st)
  | OpSetRangeFromString range => snd (arv_set_gv_port_range_from_string T range st)
  | OpBind rq => run_range (bind_request_run g_socket_bind rq st)
  end.

Fixpoint registry_run (ops : list registry_op) (st : port_range) : port_range :=
  match ops with
  | [] => st
  | op :: ops' => registry_run ops' (registry_step op st)
  end.

(** The arguments of [arv_set_gv_port_range] are [guint16]. *)
Definition registry_op_typed (op : registry_op) : Prop :=
  match op with
  | OpSetRange min max => is_guint16 min /\ is_guint16 max
  | _ => True
  end.

End RegistryOps.

Arguments OpSetRange {GSocket GInetAddress OS}.
Arguments OpSetRangeFromString {GSocket GInetAddress OS}.
Arguments OpBind {GSocket GInetAddress OS}.
Arguments registry_step {GSocket GInetAddress OS}.
Arguments registry_run {GSocket GInetAddress OS}.
Arguments registry_op_typed {GSocket GInetAddress OS}.

(** The ports of a range, lowest first. *)
Definition range_ports (st : port_range) : list Z :=
  map (fun i => arv_port_minimum st + Z.of_nat i) (seq 0 (Z.to_nat (range_size st))).

(** ** [arv_socket_set_recv_buffer_size], POSIX variant *)

Inductive recv_buffer_outcome : Type :=
| RecvReturns (b : bool)
| RecvAssertFails.

Section RecvBuffer.

(** The kernel, with [setsockopt] and [getsockopt] for [SO_RCVBUF] on a
    descriptor.  [setsockopt] gives its return value; [getsockopt] gives its
    return value, the size it reports and the [optlen] it leaves. *)
Variable Kernel : Type.
Variable setsockopt_rcvbuf : Kernel -> Z -> Z -> Kernel * Z.
Variable getsockopt_rcvbuf : Kernel -> Z -> Kernel * (Z * Z * Z).

(** What a call leaves behind: the kernel, the outcome, and the calls of
    [setsockopt] (descriptor and size) and of [getsockopt] it made. *)
Record recv_buffer_run : Type := mk_recv_buffer_run {
  rb_kernel : Kernel;
  rb_outcome : recv_buffer_outcome;
  rb_setsockopt_calls : list (Z * Z);
  rb_getsockopt_calls : list Z
}.

(** [sizeof (buffer_size_reported)], a [gint]. *)
Definition sizeof_gint : Z := 4.

Definition arv_socket_set_recv_buffer_size (socket_fd buffer_size : Z) (k : Kernel)
  : recv_buffer_run :=
  let (k1, result) := setsockopt_rcvbuf k socket_fd buffer_size in
  if negb (result =? 0) then
    {| rb_kernel := k1; rb_outcome := RecvReturns false;
       rb_setsockopt_calls := [(socket_fd, buffer_size)]; rb_getsockopt_calls := [] |}
  else
    let '(k2, (result2, buffer_size_reported, optlen)) := getsockopt_rcvbuf k1 socket_fd in
    {| rb_kernel := k2;
       rb_outcome :=
         if negb (result2 =? 0) then RecvReturns false
         else if negb (optlen =? sizeof_gint) then RecvAssertFails
         else if buffer_size_reported <? buffer_size then RecvReturns false
         else RecvReturns true;
       rb_setsockopt_calls := [(socket_fd, buffer_size)];
       rb_getsockopt_calls := [socket_fd] |}.

End RecvBuffer.

Arguments rb_kernel {Kernel}.
Arguments rb_outcome {Kernel}.
Arguments rb_setsockopt_calls {Kernel}.
Arguments rb_getsockopt_calls {Kernel}.
Arguments arv_socket_set_recv_buffer_size {Kernel}.

(** A kernel in the manner of Linux: the state is the receive buffer size
    of the one socket; a request is clamped to [rmem_max], doubled and
    stored; a negative descriptor is refused. *)
Definition linux_setsockopt (rmem_max : Z) (size : Z) (fd : Z) (value : Z) : Z * Z :=
  if fd <? 0 then (size, -1) else (2 * Z.min value rmem_max, 0).

Definition linux_getsockopt (size : Z) (fd : Z) : Z * (Z * Z * Z) :=
  if fd <? 0 then (size, (-1, 0, 4)) else (size, (0, size, 4)).

(** ** [arv_enumerate_network_interfaces], Windows variant *)

(** The preprocessor condition [WINVER >= _WIN32_WINNT_VISTA]. *)
Inductive windows_build : Type :=
| Build_Vista_or_later
| Build_pre_Vista.

Definition IfOperStatusUp : Z := 1.

(** A row of the table [GetIpAddrTable] fills in; [dwAddr] and [dwMask] are
    kept as their 4 bytes in memory, which is network order. *)
Record MIB_IPADDRROW : Type := mk_MIB_IPADDRROW {
  dwAddr : list Z;
  dwMask : list Z
}.

Record IP_ADAPTER_UNICAST_ADDRESS : Type := mk_unicast {
  Address_lpSockaddr : sockaddr;
  OnLinkPrefixLength : Z
}.

Inductive adapters_reply (Adapters : Type) : Type :=
| ERROR_BUFFER_OVERFLOW
| ERROR_SUCCESS (pAddresses : Adapters)
| ERROR_OTHER (dwRetVal : Z).

Arguments ERROR_BUFFER_OVERFLOW {Adapters}.
Arguments ERROR_SUCCESS {Adapters}.
Arguments ERROR_OTHER {Adapters}.

(** [mask->sin_addr.s_addr = htonl ((0xffffffffU) << (32 - OnLinkPrefixLength))],
    the shift in 32-bit unsigned arithmetic. *)
Definition prefix_netmask (prefix_length : Z) : list Z :=
  htonl (guint32 (Z.shiftl 0xffffffff (32 - prefix_length))).

(** The loop over the rows of the address table, left with [break] at the
    first row whose [dwAddr] is the address. *)
Fixpoint table_netmask (table : list MIB_IPADDRROW) (s_addr : list Z) : option (list Z) :=
  match table with
  | [] => None
  | row :: rows =>
      if bytes_eqb (dwAddr row) s_addr then Some (dwMask row)
      else table_netmask rows s_addr
  end.

Definition legacy_netmask (table : list MIB_IPADDRROW) (s_addr : list Z) : list Z :=
  match table_netmask table s_addr with
  | Some mask => mask
  | None => htonl 0xffff0000
  end.

(** [broadaddr->sin_addr.s_addr |= ~(mask->sin_addr.s_addr)]: the
    operators act on every bit, so on every byte of the two fields. *)
Definition or_not_bytes (s_addr mask : list Z) : list Z :=
  map (fun am => Z.lor (fst am) (Z.land (Z.lnot (snd am)) 255)) (combine s_addr mask).

Definition with_sa_addr (sa : sockaddr) (bytes : list Z) : sockaddr :=
  {| sa_len := sa_len sa; sa_family := sa_family sa; sa_addr := bytes |}.

Section WindowsEnumeration.

(** Wide strings, and [wcstombs] ([None] when it cannot convert). *)
Variable PWCHAR : Type.
Variable wcstombs : PWCHAR -> option string.

Record IP_ADAPTER_ADDRESSES : Type := mk_adapter {
  OperStatus : Z;
  FirstUnicastAddress : list IP_ADAPTER_UNICAST_ADDRESS;
  FriendlyName : PWCHAR
}.

(** The operating system, with [GetAdaptersAddresses] called on a buffer of
    a given length: it gives its reply and the length it leaves in
    [outBufLen]. *)
Variable System : Type.
Variable GetAdaptersAddresses :
  System -> Z -> System * (adapters_reply (list IP_ADAPTER_ADDRESSES) * Z).

(** The three copies of [lpSockaddr], with netmask and broadcast address
    adjusted. *)
Definition windows_interface (build : windows_build) (table : list MIB_IPADDRROW)
  (adapter : IP_ADAPTER_ADDRESSES) (u : IP_ADAPTER_UNICAST_ADDRESS) : ArvNetworkInterface :=
  let lpSockaddr := Address_lpSockaddr u in
  let mask :=
    match build with
    | Build_Vista_or_later => prefix_netmask (OnLinkPrefixLength u)
    | Build_pre_Vista => legacy_netmask table (sa_addr lpSockaddr)
    end in
  {| addr := Some lpSockaddr;
     netmask := Some (with_sa_addr lpSockaddr mask);
     broadaddr := Some (with_sa_addr lpSockaddr (or_not_bytes (sa_addr lpSockaddr) mask));
     name := wcstombs (FriendlyName adapter) |}.

(** [ok] in the inner loop. *)
Definition unicast_ok (adapter : IP_ADAPTER_ADDRESSES) (u : IP_ADAPTER_UNICAST_ADDRESS) : bool :=
  (OperStatus adapter =? IfOperStatusUp)
  && sa_family_eqb (sa_family (Address_lpSockaddr u)) AF_INET.

(** The inner loop over the unicast addresses of one adapter. *)
Fixpoint unicast_loop (build : windows_build) (table : list MIB_IPADDRROW)
  (adapter : IP_ADAPTER_ADDRESSES) (us : list IP_ADAPTER_UNICAST_ADDRESS)
  (ret : list ArvNetworkInterface) : list ArvNetworkInterface :=
  match us with
  | [] => ret
  | u :: next =>
      if negb (unicast_ok adapter u) then unicast_loop build table adapter next ret
      else unicast_loop build table adapter next
             (windows_interface build table adapter u :: ret)
  end.

(** The outer loop over the adapters. *)
Fixpoint adapter_loop (build : windows_build) (table : list MIB_IPADDRROW)
  (adapters : list IP_ADAPTER_ADDRESSES) (ret : list ArvNetworkInterface)
  : list ArvNetworkInterface :=
  match adapters with
  | [] => ret
  | adapter :: next =>
      adapter_loop build table next
        (unicast_loop build table adapter (FirstUnicastAddress adapter) ret)
  end.

(** The [do ... while] loop around [GetAdaptersAddresses], with [n] calls
    left before [iter] reaches 3.  The lengths the calls were made with are
    recorded. *)
Fixpoint adapters_retry (n : nat) (sys : System) (outBufLen : Z)
  : System * adapters_reply (list IP_ADAPTER_ADDRESSES) * list Z :=
  match n with
  | O => (sys, ERROR_BUFFER_OVERFLOW, [])
  | S n' =>
      let '(sys1, (dwRetVal, outBufLen1)) := GetAdaptersAddresses sys outBufLen in
      match dwRetVal with
      | ERROR_BUFFER_OVERFLOW =>
          let '(sys2, final, lengths) := adapters_retry n' sys1 outBufLen1 in
          (sys2, final, outBufLen :: lengths)
      | _ => (sys1, dwRetVal, [outBufLen])
      end
  end.

(** [table] is the address table [GetIpAddrTable] has filled in, on the
    build that uses it (a failure of [GetIpAddrTable] is not modelled). *)
Definition arv_enumerate_network_interfaces_win32 (build : windows_build)
  (table : list MIB_IPADDRROW) (sys : System)
  : System * list ArvNetworkInterface * list Z :=
  let '(sys1, dwRetVal, lengths) := adapters_retry 3 sys 15000 in
  match dwRetVal with
  | ERROR_SUCCESS pAddresses => (sys1, rev (adapter_loop build table pAddresses []), lengths)
  | _ => (sys1, [], lengths)
  end.

(** The descriptors made for one adapter. *)
Definition adapter_descriptors (build : windows_build) (table : list MIB_IPADDRROW)
  (adapter : IP_ADAPTER_ADDRESSES) : list ArvNetworkInterface :=
  map (windows_interface build table adapter)
      (filter (unicast_ok adapter) (FirstUnicastAddress adapter)).

(** The descriptors made from the reply the loop stops on: those of the
    adapters of a success, none for any other reply. *)
Definition reply_descriptors (build : windows_build) (table : list MIB_IPADDRROW)
  (dwRetVal : adapters_reply (list IP_ADAPTER_ADDRESSES)) : list ArvNetworkInterface :=
  match dwRetVal with
  | ERROR_SUCCESS pAddresses => flat_map (adapter_descriptors build table) pAddresses
  | _ => []
  end.

End WindowsEnumeration.

Arguments OperStatus {PWCHAR}.
Arguments FirstUnicastAddress {PWCHAR}.
Arguments FriendlyName {PWCHAR}.
Arguments mk_adapter {PWCHAR}.
Arguments windows_interface {PWCHAR}.
Arguments unicast_ok {PWCHAR}.
Arguments unicast_loop {PWCHAR}.
Arguments adapter_loop {PWCHAR}.
Arguments adapters_retry {PWCHAR System}.
Arguments arv_enumerate_network_interfaces_win32 {PWCHAR} wcstombs {System}.
Arguments adapter_descriptors {PWCHAR}.
Arguments reply_descriptors {PWCHAR}.

(** Whether a descriptor was accepted by the POSIX loop. *)
Definition is_accepted (i : ifaddrs) : bool :=
  match accepted_addr i with Some _ => true | None => false end.

(** The number whose big-endian bytes are given. *)
Definition be_value (bytes : list Z) : Z :=
  fold_left (fun acc b => acc * 256 + b) bytes 0.

(** ** The camera facade: region, binning, gain, payload *)

(** Conversion of a [gint64] to [gint], and to [guint]. *)
Definition gint (x : Z) : Z := (x + 2 ^ 31) mod 2 ^ 32 - 2 ^ 31.
Definition guint (x : Z) : Z := x mod 2 ^ 32.

Definition is_gint (x : Z) : Prop := - 2 ^ 31 <= x < 2 ^ 31.

Section Camera.

(** The device behind a camera, with the two integer feature functions of
    the device layer.  A camera is [None] when [ARV_IS_CAMERA] fails, and
    its device otherwise. *)
Variable ArvDevice : Type.
Variable arv_device_set_integer_feature_value : ArvDevice -> string -> Z -> ArvDevice.
Variable arv_device_get_integer_feature_value : ArvDevice -> string -> Z.

Definition arv_camera_set_region (camera : option ArvDevice) (x y width height : Z)
  : option ArvDevice :=
  match camera with
  | None => None
  | Some device =>
      let device1 :=
        if width >? 0 then arv_device_set_integer_feature_value device "Width" width
        else device in
      let device2 :=
        if height >? 0 then arv_device_set_integer_feature_value device1 "Height" width
        else device1 in
      Some device2
  end.

(** The four output locations: [None] is a [NULL] pointer, [Some v] a
    location holding [v]. *)
Record region_locations : Type := mk_region {
  loc_x : option Z;
  loc_y : option Z;
  loc_width : option Z;
  loc_height : option Z
}.

Definition store (location : option Z) (v : Z) : option Z :=
  match location with
  | None => None
  | Some _ => Some v
  end.

Definition arv_camera_get_region (camera : option ArvDevice) (out : region_locations)
  : region_locations :=
  match camera with
  | None => out
  | Some device =>
      {| loc_x := store (loc_x out) 0;
         loc_y := store (loc_y out) 0;
         loc_width :=
           store (loc_width out)
                 (gint (arv_device_get_integer_feature_value device "Width"));
         loc_height :=
           store (loc_height out)
                 (gint (arv_device_get_integer_feature_value device "Height")) |}
  end.

Definition arv_camera_set_binning (camera : option ArvDevice) (dx dy : Z)
  : option ArvDevice :=
  match camera with
  | None => None
  | Some device =>
      let device1 :=
        if dx >? 0 then arv_device_set_integer_feature_value device "BinningHorizontal" dx
        else device in
      let device2 :=
        if dy >? 0 then arv_device_set_integer_feature_value device1 "BinningVertical" dx
        else device1 in
      Some device2
  end.

Definition arv_camera_get_binning (camera : option ArvDevice) (dx dy : option Z)
  : option Z * option Z :=
  match camera with
  | None => (dx, dy)
  | Some device =>
      (store dx (gint (arv_device_get_integer_feature_value device "BinningHorizontal")),
       store dy (gint (arv_device_get_integer_feature_value device "BinningVertical")))
  end.

Definition arv_camera_set_gain (camera : option ArvDevice) (gain : Z) : option ArvDevice :=
  match camera with
  | None => None
  | Some device => Some (arv_device_set_integer_feature_value device "GainRaw" gain)
  end.

Definition arv_camera_get_gain (camera : option ArvDevice) : Z :=
  match camera with
  | None => 0
  | Some device => arv_device_get_integer_feature_value device "GainRaw"
  end.

Definition arv_camera_get_payload (camera : option ArvDevice) : Z :=
  match camera with
  | None => 0
  | Some device => guint (arv_device_get_integer_feature_value device "PayloadSize")
  end.

(** A device that keeps what is written to a feature and changes no other
    feature by it. *)
Definition device_keeps_features : Prop :=
  (forall d k v, arv_device_get_integer_feature_value
                   (arv_device_set_integer_feature_value d k v) k = v) /\
  (forall d k k' v, k <> k' ->
     arv_device_get_integer_feature_value
       (arv_device_set_integer_feature_value d k v) k'
     = arv_device_get_integer_feature_value d k').

End Camera.

Arguments arv_camera_set_region {ArvDevice}.
Arguments arv_camera_get_region {ArvDevice}.
Arguments arv_camera_set_binning {ArvDevice}.
Arguments arv_camera_get_binning {ArvDevice}.
Arguments arv_camera_set_gain {ArvDevice}.
Arguments arv_camera_get_gain {ArvDevice}.
Arguments arv_camera_get_payload {ArvDevice}.
Arguments device_keeps_features {ArvDevice}.

(** A device that is a table of integer features. *)
Definition table_device_set (d : string -> Z) (k : string) (v : Z) : string -> Z :=
  fun k' => if String.eqb k k' then v else d k'.

Definition table_device_get (d : string -> Z) (k : string) : Z := d k.

Definition all_locations : region_locations :=
  {| loc_x := Some 0; loc_y := Some 0; loc_width := Some 0; loc_height := Some 0 |}.

Definition is_byte (b : Z) : Prop := 0 <= b < 256.

(** The number a decimal numeral spells after the digits already read gave
    [acc]. *)
Fixpoint uint_value (d : Decimal.uint) (acc : Z) : Z :=
  match d with
  | Decimal.Nil => acc
  | Decimal.D0 l => uint_value l (acc * 10 + 0)
  | Decimal.D1 l => uint_value l (acc * 10 + 1)
  | Decimal.D2 l => uint_value l (acc * 10 + 2)
  | Decimal.D3 l => uint_value l (acc * 10 + 3)
  | Decimal.D4 l => uint_value l (acc * 10 + 4)
  | Decimal.D5 l => uint_value l (acc * 10 + 5)
  | Decimal.D6 l => uint_value l (acc * 10 + 6)
  | Decimal.D7 l => uint_value l (acc * 10 + 7)
  | Decimal.D8 l => uint_value l (acc * 10 + 8)
  | Decimal.D9 l => uint_value l (acc * 10 + 9)
  end.

(** The text [min-max] of a range, numbers written as [%u] writes them. *)
Definition range_text (min max : Z) : string :=
  (format_u min ++ "-" ++ format_u max)%string.

(** Sample data: an adapter that is up with the address 192.168.1.10/24,
    and a run of operations on the port range. *)
Definition sample_unicast : IP_ADAPTER_UNICAST_ADDRESS :=
  {| Address_lpSockaddr := {| sa_len := 0; sa_family := AF_INET;
                              sa_addr := [192; 168; 1; 10] |};
     OnLinkPrefixLength := 24 |}.

Definition sample_adapter : IP_ADAPTER_ADDRESSES string :=
  {| OperStatus := IfOperStatusUp;
     FirstUnicastAddress := [sample_unicast];
     FriendlyName := "Ethernet"%string |}.

(** A system that answers [GetAdaptersAddresses] from a script: the state
    is the list of replies still to be given, each with the length it
    leaves; with the script used up it reports that the buffer is too
    small. *)
Definition scripted_adapters
  (sys : list (adapters_reply (list (IP_ADAPTER_ADDRESSES string)) * Z)) (outBufLen : Z)
  : list (adapters_reply (list (IP_ADAPTER_ADDRESSES string)) * Z)
    * (adapters_reply (list (IP_ADAPTER_ADDRESSES string)) * Z) :=
  match sys with
  | [] => ([], (ERROR_BUFFER_OVERFLOW, outBufLen))
  | reply :: rest => (rest, reply)
  end.

Definition sample_ops : list (registry_op nat unit (list Z)) :=
  [ OpSetRange 9000 9002;
    OpBind (mk_bind_request 1%nat tt 0 false []);
    OpSetRangeFromString (Some "70000-5"%string);
    OpSetRange 5 3;
    OpBind (mk_bind_request 2%nat tt 0 false [9000; 9001; 9002]) ].

Section BindSequenceReturns.

Variables GSocket GInetAddress OS : Type.
Variable g_socket_bind : OS -> GSocket -> @GSocketAddress GInetAddress -> bool -> OS * bind_reply.

(** The ports returned by a sequence of calls, [None] for a call that
    returned [NULL]. *)
Fixpoint sequence_returns (rqs : list (bind_request GSocket GInetAddress OS))
  (st : port_range) : list (option Z) :=
  match rqs with
  | [] => []
  | rq :: rqs' =>
      let r := bind_request_run g_socket_bind rq st in
      returned_port r :: sequence_returns rqs' (run_range r)
  end.

End BindSequenceReturns.

Arguments sequence_returns {GSocket GInetAddress OS}.



(* ===================================================================== *)
(** * Part II. Properties                                                 *)
(* ===================================================================== *)

(** ** Address classification *)

Lemma byte_shiftr_8 (b : Z) : 0 <= b < 256 -> Z.shiftr b 8 = 0.
Proof.
  intros Hb. rewrite Z.shiftr_div_pow2 by lia.
  apply Z.div_small. change (2 ^ 8) with 256. lia.
Qed.

Lemma ntohl_leading_byte (b0 b1 b2 b3 : Z) :
  0 <= b0 -> 0 <= b1 < 256 -> 0 <= b2 < 256 -> 0 <= b3 < 256 ->
  exists v, ntohl [b0; b1; b2; b3] = Some v /\ Z.shiftr v 24 = b0.
Proof.
  intros H0 H1 H2 H3. eexists. split; [reflexivity|].
  rewrite !Z.shiftr_lor.
  rewrite Z.shiftr_shiftl_l by lia.
  rewrite (Z.shiftr_shiftl_r b1 16 24) by lia.
  rewrite (Z.shiftr_shiftl_r b2 8 24) by lia.
  replace (24 - 24) with 0 by lia. rewrite Z.shiftl_0_r.
  assert (E1 : Z.shiftr b1 (24 - 16) = 0) by (apply byte_shiftr_8; lia).
  assert (E2 : Z.shiftr b2 (24 - 8) = 0).
  { rewrite Z.shiftr_div_pow2 by lia. apply Z.div_small.
    change (2 ^ (24 - 8)) with 65536. lia. }
  assert (E3 : Z.shiftr b3 24 = 0).
  { rewrite Z.shiftr_div_pow2 by lia. apply Z.div_small.
    change (2 ^ 24) with 16777216. lia. }
  rewrite E1, E2, E3. rewrite !Z.lor_0_r. reflexivity.
Qed.

(** IPv4: the answer is decided by the leading byte alone. *)
Lemma is_loopback_in_leading_byte (b0 b1 b2 b3 : Z) :
  0 <= b0 -> 0 <= b1 < 256 -> 0 <= b2 < 256 -> 0 <= b3 < 256 ->
  is_loopback_in [b0; b1; b2; b3] = Returns (b0 =? 127).
Proof.
  intros H0 H1 H2 H3.
  destruct (ntohl_leading_byte b0 b1 b2 b3 H0 H1 H2 H3) as [v [Hv Hs]].
  unfold is_loopback_in. rewrite Hv, Hs. reflexivity.
Qed.

(** The loop leaves through its end exactly when the [n] bytes from [pos]
    on are all there and all zero. *)
Lemma i6_loop_falls_through (i6 : list Z) (n pos : nat) :
  i6_loop i6 pos n = None <->
  (forall k, (pos <= k < pos + n)%nat -> nth_error i6 k = Some 0).
Proof.
  revert pos. induction n as [|n IH]; intros pos; simpl.
  - split; [intros _ k Hk; lia | reflexivity].
  - destruct (nth_error i6 pos) as [b|] eqn:Hb.
    + destruct (b =? 0) eqn:Hz; simpl.
      * apply Z.eqb_eq in Hz. subst b. rewrite IH. split.
        -- intros H k Hk. destruct (Nat.eq_dec k pos) as [->|Hne]; [exact Hb|].
           apply H. lia.
        -- intros H k Hk. apply H. lia.
      * split; [discriminate|].
        intros H. specialize (H pos ltac:(lia)). rewrite Hb in H.
        injection H as ->. discriminate.
    + split; [discriminate|].
      intros H. specialize (H pos ltac:(lia)). rewrite Hb in H. discriminate.
Qed.

(** When the bytes are all there, the loop can only fall through or
    answer [FALSE]. *)
Lemma i6_loop_in_bounds (i6 : list Z) (n pos : nat) :
  (pos + n <= List.length i6)%nat ->
  i6_loop i6 pos n = None \/ i6_loop i6 pos n = Some (Returns false).
Proof.
  revert pos. induction n as [|n IH]; intros pos Hlen; simpl.
  - left; reflexivity.
  - destruct (nth_error i6 pos) as [b|] eqn:Hb.
    + destruct (b =? 0); simpl; [apply IH; lia | right; reflexivity].
    + apply nth_error_None in Hb. lia.
Qed.

Lemma i6_loop_false_nonzero (i6 : list Z) (n pos : nat) :
  i6_loop i6 pos n = Some (Returns false) -> exists b, In b i6 /\ b <> 0.
Proof.
  revert pos. induction n as [|n IH]; intros pos; simpl; [discriminate|].
  destruct (nth_error i6 pos) as [b|] eqn:Hb; [|discriminate].
  destruct (Z.eqb_spec b 0) as [->|Hne]; simpl.
  - apply IH.
  - intros _. exists b. split; [eapply nth_error_In; eassumption | exact Hne].
Qed.

Lemma all_zero_nth (i6 : list Z) :
  (forall b, In b i6 -> b = 0) <->
  (forall k, (0 <= k < 0 + List.length i6)%nat -> nth_error i6 k = Some 0).
Proof.
  split.
  - intros H k Hk. destruct (nth_error i6 k) as [b|] eqn:Hb.
    + f_equal. apply H. eapply nth_error_In; eassumption.
    + apply nth_error_None in Hb. lia.
  - intros H b Hin. apply In_nth_error in Hin. destruct Hin as [k Hk].
    assert (Hlt : (k < List.length i6)%nat).
    { apply nth_error_Some. rewrite Hk. discriminate. }
    rewrite (H k) in Hk by lia. congruence.
Qed.

(** On a 16-byte address the IPv6 branch never answers [TRUE]: it answers
    [FALSE] when some byte is not zero and reads [i6[16]] otherwise. *)
Lemma is_loopback_in6_16_bytes (i6 : list Z) :
  List.length i6 = 16%nat ->
  ((forall b, In b i6 -> b = 0) /\ is_loopback_in6 i6 = ReadsOutOfBounds 16) \/
  ((exists b, In b i6 /\ b <> 0) /\ is_loopback_in6 i6 = Returns false).
Proof.
  intros Hlen. unfold is_loopback_in6.
  destruct (i6_loop_in_bounds i6 16 0) as [E|E]; [lia | |]; rewrite E.
  - left. split.
    + apply all_zero_nth. rewrite Hlen. apply i6_loop_falls_through. exact E.
    + assert (Hn : nth_error i6 16 = None) by (apply nth_error_None; lia).
      rewrite Hn. reflexivity.
  - right. split; [|reflexivity].
    apply i6_loop_false_nonzero in E. exact E.
Qed.

(** The parts of the loopback test that the code gets right: [127.0.0.1]
    and [127.5.5.5] are loopback, [10.0.0.1] and [::2] are not, a [NULL]
    interface and any family other than IPv4 and IPv6 are not. *)
Lemma is_loopback_examples :
  arv_network_interface_is_loopback (Some (in_interface [127; 0; 0; 1])) = Returns true /\
  arv_network_interface_is_loopback (Some (in_interface [127; 5; 5; 5])) = Returns true /\
  arv_network_interface_is_loopback (Some (in_interface [10; 0; 0; 1])) = Returns false /\
  arv_network_interface_is_loopback (Some (in6_interface (repeat 0 15 ++ [2]))) = Returns false /\
  arv_network_interface_is_loopback None = Returns false.
Proof. repeat split; reflexivity. Qed.

Lemma is_loopback_other_family (a : ArvNetworkInterface) (sa : sockaddr) (f : Z) :
  addr a = Some sa -> sa_family sa = AF_OTHER f ->
  arv_network_interface_is_loopback (Some a) = Returns false.
Proof.
  intros Ha Hf. unfold arv_network_interface_is_loopback. rewrite Ha, Hf. reflexivity.
Qed.

Lemma is_loopback_ipv4 (a : ArvNetworkInterface) (sa : sockaddr) (b0 b1 b2 b3 : Z) :
  addr a = Some sa -> sa_family sa = AF_INET -> sa_addr sa = [b0; b1; b2; b3] ->
  0 <= b0 -> 0 <= b1 < 256 -> 0 <= b2 < 256 -> 0 <= b3 < 256 ->
  arv_network_interface_is_loopback (Some a) = Returns (b0 =? 127).
Proof.
  intros Ha Hf Hb H0 H1 H2 H3.
  unfold arv_network_interface_is_loopback. rewrite Ha, Hf, Hb.
  apply is_loopback_in_leading_byte; assumption.
Qed.

(** C2.  The canonical IPv6 loopback address [::1] is answered [FALSE]: the
    loop runs over all sixteen bytes, meets the final 1 at position 15 and
    returns there.  (The comment in the source says that loopback is [::1],
    zeros and 1 at the end.) *)
Theorem is_loopback_rejects_ipv6_localhost :
  forall (len : Z) (nm bc : option sockaddr) (nme : option string),
    arv_network_interface_is_loopback
      (Some {| addr := Some {| sa_len := len; sa_family := AF_INET6;
                               sa_addr := [0;0;0;0;0;0;0;0;0;0;0;0;0;0;0;1] |};
               netmask := nm; broadaddr := bc; name := nme |})
    = Returns false.
Proof. intros. reflexivity. Qed.

(** C10.  For an IPv6 interface whose 16 address bytes are all zero (the
    address [::]), the loop passes positions 0 to 15 and the function then
    reads [i6[16]], one past the last byte: with option-valued indexing that
    read is [None].  Conversely the read at 16 happens for no other 16-byte
    address. *)
Theorem is_loopback_ipv6_reads_past_end :
  forall (a : ArvNetworkInterface) (sa : sockaddr),
    addr a = Some sa ->
    sa_family sa = AF_INET6 ->
    List.length (sa_addr sa) = 16%nat ->
    nth_error (sa_addr sa) 16 = None /\
    ((forall b, In b (sa_addr sa) -> b = 0) ->
     i6_loop (sa_addr sa) 0 16 = None /\
     arv_network_interface_is_loopback (Some a) = ReadsOutOfBounds 16) /\
    (arv_network_interface_is_loopback (Some a) = ReadsOutOfBounds 16 ->
     forall b, In b (sa_addr sa) -> b = 0).
Proof.
  intros a sa Ha Hf Hlen.
  assert (Hcall : arv_network_interface_is_loopback (Some a) = is_loopback_in6 (sa_addr sa)).
  { unfold arv_network_interface_is_loopback. rewrite Ha, Hf. reflexivity. }
  split; [apply nth_error_None; lia|]. split.
  - intros Hz. split.
    + apply i6_loop_falls_through. rewrite <- Hlen. apply all_zero_nth. exact Hz.
    + rewrite Hcall.
      destruct (is_loopback_in6_16_bytes _ Hlen) as [[_ E]|[[b [Hin Hb]] _]];
        [exact E | exfalso; apply Hb, Hz, Hin].
  - rewrite Hcall. intros E.
    destruct (is_loopback_in6_16_bytes _ Hlen) as [[Hz _]|[_ E']];
      [exact Hz | congruence].
Qed.

Lemma is_loopback_ipv6_reads_past_end_witness :
  List.length (repeat 0 16) = 16%nat /\
  (forall b, In b (repeat 0 16) -> b = 0) /\
  arv_network_interface_is_loopback (Some (in6_interface (repeat 0 16)))
  = ReadsOutOfBounds 16.
Proof.
  split; [reflexivity|]. split.
  - intros b Hb. apply repeat_spec in Hb. exact Hb.
  - apply (is_loopback_ipv6_reads_past_end (in6_interface (repeat 0 16))
             {| sa_len := 0; sa_family := AF_INET6; sa_addr := repeat 0 16 |}
             eq_refl eq_refl eq_refl).
    intros b Hb. apply repeat_spec in Hb. exact Hb.
Defined.

(** C8.  The fake loopback interface is named ["<fake IPv4 localhost>"], has
    the IPv4 address 127.0.0.1, netmask 255.0.0.0 and broadcast address
    127.255.255.255, and the loopback test answers [TRUE] on it. *)
Theorem fake_ipv4_loopback_is_loopback :
  name arv_network_get_fake_ipv4_loopback = Some "<fake IPv4 localhost>"%string /\
  option_map sa_family (addr arv_network_get_fake_ipv4_loopback) = Some AF_INET /\
  option_map sa_addr (addr arv_network_get_fake_ipv4_loopback) = Some [127; 0; 0; 1] /\
  option_map sa_family (netmask arv_network_get_fake_ipv4_loopback) = Some AF_INET /\
  option_map sa_addr (netmask arv_network_get_fake_ipv4_loopback) = Some [255; 0; 0; 0] /\
  option_map sa_family (broadaddr arv_network_get_fake_ipv4_loopback) = Some AF_INET /\
  option_map sa_addr (broadaddr arv_network_get_fake_ipv4_loopback) = Some [127; 255; 255; 255] /\
  arv_network_interface_is_loopback (Some arv_network_get_fake_ipv4_loopback) = Returns true.
Proof. repeat split; reflexivity. Qed.

(** ** Interface enumeration *)

Lemma enumerate_loop_prepends (build : posix_build) (ifap : list ifaddrs) :
  forall ret,
    enumerate_loop build ifap ret = rev (flat_map (descriptor_of build) ifap) ++ ret.
Proof.
  induction ifap as [|i rest IH]; intros ret; simpl; [reflexivity|].
  unfold descriptor_of at 1.
  destruct (accepted_addr i) as [sa|]; rewrite IH; simpl.
  - rewrite <- app_assoc. reflexivity.
  - reflexivity.
Qed.

(** Prepending and reversing gives the accepted nodes in the order of the
    platform's list. *)
Lemma enumerate_in_platform_order (build : posix_build) (ifap : list ifaddrs) :
  arv_enumerate_network_interfaces build (Some ifap) = flat_map (descriptor_of build) ifap.
Proof.
  unfold arv_enumerate_network_interfaces.
  rewrite enumerate_loop_prepends, app_nil_r. apply rev_involutive.
Qed.

(** C9, as stated, fails on the build for Linux and the other non-BSD POSIX
    systems: an interface that is up, has an IPv4 address and no broadcast
    address is returned with [broadaddr] left [NULL], not with a copy of its
    own address. *)
Lemma enumerate_other_posix_broadaddr_absent :
  accepted_addr sample_lo = ifa_addr sample_lo /\
  ifa_broadaddr sample_lo = None /\
  arv_enumerate_network_interfaces Build_other_POSIX (Some [sample_lo])
  = [ {| addr := ifa_addr sample_lo; netmask := ifa_netmask sample_lo;
         broadaddr := None; name := Some "lo"%string |} ] /\
  ~ (forall a, In a (arv_enumerate_network_interfaces Build_other_POSIX (Some [sample_lo])) ->
               broadaddr a = addr a).
Proof.
  repeat split; try reflexivity.
  intros H. specialize (H _ (or_introl eq_refl)). discriminate H.
Qed.

(** C9, amended.  The descriptors returned are exactly those made from the
    accepted nodes.  On the BSD and macOS build, a descriptor made from a
    node without broadcast address ([ifa_broadaddr] is [NULL] or has
    [sa_len] 0) has its own address as broadcast address; on the other POSIX
    build a node whose [ifa_broadaddr] is [NULL] gives a descriptor whose
    [broadaddr] is absent. *)
Theorem enumerate_broadaddr_default :
  forall (build : posix_build) (ifap : list ifaddrs),
    (forall a, In a (arv_enumerate_network_interfaces build (Some ifap)) <->
               exists i sa, In i ifap /\ accepted_addr i = Some sa /\
                            a = enumerated_interface build i sa) /\
    (forall i sa, In i ifap -> accepted_addr i = Some sa -> no_broadcast build i = true ->
       In (enumerated_interface build i sa)
          (arv_enumerate_network_interfaces build (Some ifap)) /\
       addr (enumerated_interface build i sa) = Some sa /\
       ifa_addr i = Some sa /\
       broadaddr (enumerated_interface build i sa)
       = match build with
         | Build_BSD_or_Darwin => Some sa
         | Build_other_POSIX => None
         end).
Proof.
  intros build ifap.
  assert (Hin : forall a, In a (arv_enumerate_network_interfaces build (Some ifap)) <->
               exists i sa, In i ifap /\ accepted_addr i = Some sa /\
                            a = enumerated_interface build i sa).
  { intros a. rewrite enumerate_in_platform_order, in_flat_map. split.
    - intros [i [Hi Ha]]. unfold descriptor_of in Ha.
      destruct (accepted_addr i) as [sa|] eqn:Hacc; simpl in Ha; [|contradiction].
      destruct Ha as [<-|[]]. exists i, sa. auto.
    - intros [i [sa [Hi [Hacc ->]]]]. exists i. split; [exact Hi|].
      unfold descriptor_of. rewrite Hacc. left; reflexivity. }
  split; [exact Hin|].
  intros i sa Hi Hacc Hnb. split; [|split; [|split]].
  - apply Hin. exists i, sa. auto.
  - reflexivity.
  - unfold accepted_addr in Hacc.
    destruct (negb (Z.land (ifa_flags i) IFF_UP =? 0)); [|discriminate].
    destruct (ifa_addr i) as [sa'|]; [|discriminate].
    destruct (sa_family_eqb (sa_family sa') AF_INET); congruence.
  - unfold enumerated_interface, enumerated_broadaddr, no_broadcast in *. simpl.
    destruct build; destruct (ifa_broadaddr i) as [b|]; try reflexivity.
    + rewrite Hnb. reflexivity.
    + discriminate.
Qed.

Lemma enumerate_broadaddr_default_witness :
  In sample_lo [sample_lo] /\
  accepted_addr sample_lo = ifa_addr sample_lo /\
  no_broadcast Build_BSD_or_Darwin sample_lo = true /\
  broadaddr (enumerated_interface Build_BSD_or_Darwin sample_lo
               {| sa_len := 16; sa_family := AF_INET; sa_addr := [127; 0; 0; 1] |})
  = ifa_addr sample_lo.
Proof.
  split; [left; reflexivity|]. split; [reflexivity|]. split; [reflexivity|].
  apply (proj2 (enumerate_broadaddr_default Build_BSD_or_Darwin [sample_lo])
           sample_lo _ (or_introl eq_refl) eq_refl eq_refl).
Defined.

(** ** The port range *)

Lemma guint32_small (x : Z) : 0 <= x < 2 ^ 32 -> guint32 x = x.
Proof. intros H. unfold guint32. apply Z.mod_small. exact H. Qed.

Lemma guint16_small (x : Z) : 0 <= x <= 65535 -> guint16 x = x.
Proof.
  intros H. unfold guint16. apply Z.mod_small. change (2 ^ 16) with 65536. lia.
Qed.

Lemma pow2_32 : 2 ^ 32 = 4294967296.
Proof. reflexivity. Qed.

Lemma range_ok_init : range_ok port_range_init.
Proof. unfold range_ok, port_range_init; simpl. lia. Qed.

Lemma set_gv_port_range_rejects (min max : Z) (st : port_range) :
  max < min -> arv_set_gv_port_range min max st = (false, st).
Proof.
  intros H. unfold arv_set_gv_port_range.
  destruct (Z.leb_spec min max); [lia | reflexivity].
Qed.

Lemma set_gv_port_range_installs (min max : Z) (st : port_range) :
  is_guint16 min -> is_guint16 max -> min <= max ->
  arv_set_gv_port_range min max st
  = (true, {| arv_port_minimum := min; arv_port_maximum := max;
              arv_last_port_offset := max - min |}).
Proof.
  intros Hmin Hmax H. unfold is_guint16 in *. unfold arv_set_gv_port_range.
  destruct (Z.leb_spec min max); [|lia]. simpl.
  rewrite guint32_small by (rewrite pow2_32; lia). reflexivity.
Qed.

Lemma set_gv_port_range_ok (min max : Z) (st : port_range) :
  is_guint16 min -> is_guint16 max -> min <= max ->
  range_ok (snd (arv_set_gv_port_range min max st)).
Proof.
  intros Hmin Hmax H. rewrite set_gv_port_range_installs by assumption.
  unfold is_guint16, range_ok in *. simpl. lia.
Qed.

(** One step of the cursor, without the machine arithmetic. *)
Lemma advance_offset_ok (st : port_range) :
  range_ok st ->
  arv_port_minimum (advance_offset st) = arv_port_minimum st /\
  arv_port_maximum (advance_offset st) = arv_port_maximum st /\
  arv_last_port_offset (advance_offset st)
  = (arv_last_port_offset st + 1) mod range_size st /\
  candidate_port (advance_offset st)
  = arv_port_minimum st + (arv_last_port_offset st + 1) mod range_size st /\
  range_ok (advance_offset st).
Proof.
  intros (H0 & H1 & H2 & H3). unfold range_size.
  assert (Hoff : arv_last_port_offset (advance_offset st)
                 = (arv_last_port_offset st + 1)
                     mod (arv_port_maximum st - arv_port_minimum st + 1)).
  { unfold advance_offset; simpl.
    rewrite !guint32_small by (rewrite pow2_32; lia). reflexivity. }
  assert (Hb : 0 <= (arv_last_port_offset st + 1)
                      mod (arv_port_maximum st - arv_port_minimum st + 1)
               < arv_port_maximum st - arv_port_minimum st + 1)
    by (apply Z.mod_pos_bound; lia).
  split; [reflexivity|]. split; [reflexivity|]. split; [exact Hoff|]. split.
  - unfold candidate_port. rewrite Hoff.
    change (arv_port_minimum (advance_offset st)) with (arv_port_minimum st).
    rewrite guint32_small by (rewrite pow2_32; lia).
    apply guint16_small. lia.
  - unfold range_ok. rewrite Hoff.
    change (arv_port_minimum (advance_offset st)) with (arv_port_minimum st).
    change (arv_port_maximum (advance_offset st)) with (arv_port_maximum st).
    lia.
Qed.

Lemma scan_length_ok (st : port_range) :
  range_ok st -> Z.of_nat (scan_length st) = range_size st.
Proof.
  intros (H0 & H1 & H2 & H3). unfold scan_length, range_size.
  rewrite guint32_small by (rewrite pow2_32; lia). lia.
Qed.

Lemma range_disabled_spec (st : port_range) :
  range_disabled st = true <-> arv_port_minimum st = 0 /\ arv_port_maximum st = 0.
Proof.
  unfold range_disabled. rewrite andb_true_iff, !Z.eqb_eq. reflexivity.
Qed.

(** ** The binder *)

Section Binder.

Context {GSocket GInetAddress OS : Type}.
Variable g_socket_bind :
  OS -> GSocket -> @GSocketAddress GInetAddress -> bool -> OS * bind_reply.

Abbreviation bind := (arv_socket_bind_with_range g_socket_bind).
Abbreviation scan := (bind_scan g_socket_bind).

Lemma bind_takes_direct_branch socket address port allow_reuse st os :
  port <> 0 \/ (arv_port_minimum st = 0 /\ arv_port_maximum st = 0) ->
  bind socket address port allow_reuse st os
  = bind_direct g_socket_bind socket address port allow_reuse st os.
Proof.
  intros H. unfold arv_socket_bind_with_range.
  destruct (Z.eqb_spec port 0) as [E|E]; simpl; [|reflexivity].
  destruct H as [H|H]; [contradiction|].
  apply range_disabled_spec in H. rewrite H. reflexivity.
Qed.

Lemma bind_takes_scan_branch socket address allow_reuse st os :
  ~ (arv_port_minimum st = 0 /\ arv_port_maximum st = 0) ->
  bind socket address 0 allow_reuse st os
  = scan (scan_length st) socket address allow_reuse st os.
Proof.
  intros H. unfold arv_socket_bind_with_range. simpl.
  destruct (range_disabled st) eqn:E; [|reflexivity].
  apply range_disabled_spec in E. contradiction.
Qed.

Lemma nth_candidate_advance (st : port_range) (k : nat) :
  range_ok st -> nth_candidate (advance_offset st) k = nth_candidate st (S k).
Proof.
  intros Hok. destruct (advance_offset_ok st Hok) as (Hmin & Hmax & Hoff & _ & _).
  unfold nth_candidate, range_size in *. rewrite Hmin, Hmax, Hoff.
  rewrite Zplus_mod_idemp_l. f_equal. f_equal. lia.
Qed.

Lemma nth_candidate_in_range (st : port_range) (k : nat) :
  range_ok st ->
  arv_port_minimum st <= nth_candidate st k <= arv_port_maximum st.
Proof.
  intros (H0 & H1 & H2 & H3). unfold nth_candidate, range_size.
  pose proof (Z.mod_pos_bound (arv_last_port_offset st + Z.of_nat k)
                (arv_port_maximum st - arv_port_minimum st + 1) ltac:(lia)).
  lia.
Qed.

Lemma scan_post_stop (n : nat) (address : GInetAddress) st (os1 : OS) reply ret err :
  range_ok st ->
  (forall sa, ret = Some sa ->
     sa = {| sock_address := address; sock_port := candidate_port (advance_offset st) |}) ->
  scan_post (S n) address st
    {| run_range := advance_offset st; run_os := os1; run_ret := ret; run_error := err;
       run_calls := [({| sock_address := address;
                         sock_port := candidate_port (advance_offset st) |}, reply)] |}.
Proof.
  intros Hok Hret.
  destruct (advance_offset_ok st Hok) as (Hmin & Hmax & Hoff & Hport & Hok1).
  assert (Hfirst : candidate_port (advance_offset st) = nth_candidate st 1)
    by (rewrite Hport; reflexivity).
  unfold scan_post; simpl.
  split; [exact Hok1|]. split; [exact Hmin|]. split; [exact Hmax|].
  split; [lia|]. split; [unfold called_ports; simpl; rewrite Hfirst; reflexivity|].
  split; [intros c [<-|[]]; reflexivity|].
  split; [exact Hoff|].
  intros sa Hsa. rewrite (Hret sa Hsa). simpl. rewrite Hfirst. auto.
Qed.

Lemma scan_post_continue (n : nat) (address : GInetAddress) st reply
  (r : bind_run GInetAddress OS) :
  range_ok st ->
  scan_post n address (advance_offset st) r ->
  scan_post (S n) address st
    (record_call ({| sock_address := address;
                     sock_port := candidate_port (advance_offset st) |}, reply) r).
Proof.
  intros Hok (I1 & I2 & I3 & I4 & I5 & I6 & I7 & I8).
  destruct (advance_offset_ok st Hok) as (Hmin & Hmax & Hoff & Hport & Hok1).
  assert (Hfirst : candidate_port (advance_offset st) = nth_candidate st 1)
    by (rewrite Hport; reflexivity).
  unfold scan_post; simpl.
  split; [exact I1|]. split; [congruence|]. split; [congruence|].
  split; [lia|]. split.
  { unfold called_ports in *. simpl. rewrite Hfirst. f_equal.
    rewrite I5. rewrite <- (seq_shift (List.length (run_calls r)) 1), map_map.
    apply map_ext. intros k. apply nth_candidate_advance. exact Hok. }
  split; [intros c [<-|Hc]; [reflexivity | apply I6; exact Hc]|].
  split.
  { rewrite I7. unfold range_size. rewrite Hmin, Hmax, Hoff.
    unfold range_size. rewrite Zplus_mod_idemp_l. f_equal. lia. }
  intros sa Hsa. destruct (I8 sa Hsa) as (J1 & J2 & J3).
  split; [exact J1|]. split; [|lia].
  rewrite J2. apply nth_candidate_advance. exact Hok.
Qed.

Lemma scan_cursor (n : nat) socket address allow_reuse :
  forall st os, range_ok st ->
    scan_post n address st (scan n socket address allow_reuse st os).
Proof.
  induction n as [|n IH]; intros st os Hok; simpl.
  - unfold scan_post; simpl.
    split; [exact Hok|]. repeat split; try reflexivity;
      try (intros; contradiction); try discriminate.
    destruct Hok as (H0 & H1 & H2 & H3). unfold range_size.
    rewrite Z.add_0_r. symmetry. apply Z.mod_small. lia.
  - pose proof (advance_offset_ok st Hok) as (_ & _ & _ & _ & Hok1).
    destruct (g_socket_bind os socket _ allow_reuse) as [os1 reply].
    destruct reply as [|[e|]].
    + apply scan_post_stop; [exact Hok|]. intros sa Hsa. congruence.
    + destruct (is_address_in_use e); simpl.
      * apply scan_post_continue; [exact Hok|]. apply IH. exact Hok1.
      * apply scan_post_stop; [exact Hok|]. discriminate.
    + apply scan_post_continue; [exact Hok|]. apply IH. exact Hok1.
Qed.

(** The cursor after [k] advances. *)
Lemma iter_advance_offset (st : port_range) (k : nat) :
  range_ok st ->
  range_ok (Nat.iter k advance_offset st) /\
  arv_port_minimum (Nat.iter k advance_offset st) = arv_port_minimum st /\
  arv_port_maximum (Nat.iter k advance_offset st) = arv_port_maximum st /\
  arv_last_port_offset (Nat.iter k advance_offset st)
  = (arv_last_port_offset st + Z.of_nat k) mod range_size st.
Proof.
  intros Hok. induction k as [|k (I1 & I2 & I3 & I4)].
  - simpl. repeat split; try apply Hok.
    destruct Hok as (H0 & H1 & H2 & H3). unfold range_size.
    rewrite Z.add_0_r. symmetry. apply Z.mod_small. lia.
  - rewrite Nat.iter_succ.
    destruct (advance_offset_ok _ I1) as (Hmin & Hmax & Hoff & _ & Hok1).
    split; [exact Hok1|]. split; [congruence|]. split; [congruence|].
    rewrite Hoff. unfold range_size. rewrite I2, I3, I4. unfold range_size.
    rewrite Zplus_mod_idemp_l. f_equal. lia.
Qed.

(** The [k]-th candidate is the port read off the cursor after it has
    been advanced [k] times. *)
Lemma nth_candidate_iter (st : port_range) (k : nat) :
  range_ok st ->
  nth_candidate st (S k) = candidate_port (Nat.iter (S k) advance_offset st).
Proof.
  intros Hok. rewrite Nat.iter_succ.
  destruct (iter_advance_offset st k Hok) as (I1 & I2 & I3 & I4).
  destruct (advance_offset_ok _ I1) as (_ & _ & _ & Hport & _).
  rewrite Hport. unfold nth_candidate, range_size. rewrite I2, I3, I4.
  unfold range_size. rewrite Zplus_mod_idemp_l. f_equal. f_equal. lia.
Qed.

Lemma scan_post_nth_call (n : nat) (address : GInetAddress) st
  (r : bind_run GInetAddress OS) k c :
  scan_post n address st r ->
  nth_error (run_calls r) k = Some c ->
  fst c = {| sock_address := address; sock_port := nth_candidate st (S k) |}.
Proof.
  intros (_ & _ & _ & _ & Hports & Haddr & _) Hk.
  assert (Hlt : (k < List.length (run_calls r))%nat)
    by (apply nth_error_Some; rewrite Hk; discriminate).
  assert (Hp : nth_error (called_ports r) k = Some (sock_port (fst c))).
  { unfold called_ports. rewrite nth_error_map, Hk. reflexivity. }
  rewrite Hports, nth_error_map, nth_error_seq in Hp.
  apply Nat.ltb_lt in Hlt. rewrite Hlt in Hp. simpl in Hp.
  injection Hp as Hp.
  specialize (Haddr c (nth_error_In _ _ Hk)).
  destruct c as [[a p] reply]; simpl in *. congruence.
Qed.

(** Every call leaves the bounds alone and the cursor inside the range. *)
Lemma bind_preserves_range socket address port allow_reuse st os :
  range_ok st ->
  range_ok (run_range (bind socket address port allow_reuse st os)) /\
  arv_port_minimum (run_range (bind socket address port allow_reuse st os))
  = arv_port_minimum st /\
  arv_port_maximum (run_range (bind socket address port allow_reuse st os))
  = arv_port_maximum st.
Proof.
  intros Hok. unfold arv_socket_bind_with_range.
  destruct (negb (port =? 0) || range_disabled st).
  - unfold bind_direct. destruct (g_socket_bind os socket _ allow_reuse); simpl. auto.
  - destruct (scan_cursor (scan_length st) socket address allow_reuse st os Hok)
      as (H1 & H2 & H3 & _). auto.
Qed.

Lemma bind_sequence_preserves_range (rqs : list (bind_request GSocket GInetAddress OS)) :
  forall st, range_ok st ->
    range_ok (bind_sequence g_socket_bind rqs st) /\
    arv_port_minimum (bind_sequence g_socket_bind rqs st) = arv_port_minimum st /\
    arv_port_maximum (bind_sequence g_socket_bind rqs st) = arv_port_maximum st.
Proof.
  induction rqs as [|rq rqs IH]; intros st Hok; simpl; [auto|].
  unfold bind_request_run.
  destruct (bind_preserves_range (rq_socket rq) (rq_address rq) (rq_port rq)
              (rq_allow_reuse rq) st (rq_os rq) Hok) as (H1 & H2 & H3).
  destruct (IH _ H1) as (J1 & J2 & J3).
  split; [exact J1|]. split; congruence.
Qed.

(** *** The shape of a scan's call log *)

Lemma scan_shape_continue (n : nat) st c (r : bind_run GInetAddress OS) :
  retried c ->
  scan_shape n (advance_offset st) r ->
  scan_shape (S n) st (record_call c r).
Proof.
  intros Hc [(pre & sa & E & Hpre & Hlen & Hret & Herr)
            |[(pre & sa & e & E & He & Hpre & Hlen & Hret & Herr)
             |(Hall & Hlen & Hret & Herr)]].
  - left. exists (c :: pre), sa. simpl. rewrite E.
    repeat split; auto. lia.
  - right; left. exists (c :: pre), sa, e. simpl. rewrite E.
    repeat split; auto. lia.
  - right; right. simpl. repeat split; auto.
Qed.

Lemma scan_has_shape (n : nat) socket address allow_reuse :
  forall st os, scan_shape n st (scan n socket address allow_reuse st os).
Proof.
  induction n as [|n IH]; intros st os; simpl.
  - right; right. simpl. repeat split. constructor.
  - destruct (g_socket_bind os socket _ allow_reuse) as [os1 reply].
    destruct reply as [|[e|]].
    + left. eexists [], _. simpl. repeat split; auto. lia.
    + destruct (is_address_in_use e) eqn:He; simpl.
      * apply scan_shape_continue; [exact He | apply IH].
      * right; left. eexists [], _, e. simpl. repeat split; auto. lia.
    + apply scan_shape_continue; [reflexivity | apply IH].
Qed.

Lemma nth_error_snoc_cases {A : Type} (l : list A) (x c : A) (k : nat) :
  nth_error (l ++ [x]) k = Some c ->
  ((k < List.length l)%nat /\ nth_error l k = Some c) \/ (k = List.length l /\ c = x).
Proof.
  intros H. rewrite nth_error_app in H.
  destruct (Nat.ltb_spec k (List.length l)) as [Hlt|Hge].
  - left. auto.
  - right. destruct (k - List.length l)%nat as [|j] eqn:Hj; simpl in H.
    + split; [lia | congruence].
    + destruct j; discriminate.
Qed.

Lemma Forall_nth_error {A : Type} (P : A -> Prop) (l : list A) (k : nat) (c : A) :
  Forall P l -> nth_error l k = Some c -> P c.
Proof.
  intros Hall Hk. rewrite Forall_forall in Hall. apply Hall.
  eapply nth_error_In. eassumption.
Qed.

(** A reply that asks for a retry is followed by another call, unless
    all [n] candidates have been tried. *)
Lemma scan_shape_retry_goes_on (n : nat) st (r : bind_run GInetAddress OS) k c :
  scan_shape n st r ->
  nth_error (run_calls r) k = Some c -> retried c -> (S k < n)%nat ->
  (S k < List.length (run_calls r))%nat.
Proof.
  intros [(pre & sa & E & Hpre & Hlen & _)
         |[(pre & sa & e & E & He & Hpre & Hlen & _)
          |(Hall & Hlen & _)]] Hk Hc Hn.
  - rewrite E in *. rewrite length_app. simpl.
    apply nth_error_snoc_cases in Hk. destruct Hk as [[Hlt _]|[_ ->]]; [lia|].
    discriminate Hc.
  - rewrite E in *. rewrite length_app. simpl.
    apply nth_error_snoc_cases in Hk. destruct Hk as [[Hlt _]|[_ ->]]; [lia|].
    unfold retried in Hc. simpl in Hc. congruence.
  - lia.
Qed.

(** A failure with another error is the last call, and its error is what
    the caller gets. *)
Lemma scan_shape_other_error_aborts (n : nat) st (r : bind_run GInetAddress OS) k sa e :
  scan_shape n st r ->
  nth_error (run_calls r) k = Some (sa, BindFailed (Some e)) ->
  is_address_in_use e = false ->
  List.length (run_calls r) = S k /\ run_ret r = None /\ run_error r = Some e.
Proof.
  intros [(pre & sa0 & E & Hpre & Hlen & _)
         |[(pre & sa0 & e0 & E & He0 & Hpre & Hlen & Hret & Herr)
          |(Hall & Hlen & _)]] Hk He.
  - rewrite E in Hk. apply nth_error_snoc_cases in Hk.
    destruct Hk as [[_ Hk]|[_ Hk]]; [|discriminate Hk].
    pose proof (Forall_nth_error _ _ _ _ Hpre Hk) as Hr.
    unfold retried in Hr. simpl in Hr. congruence.
  - rewrite E in *. apply nth_error_snoc_cases in Hk.
    destruct Hk as [[_ Hk]|[-> Hk]].
    + pose proof (Forall_nth_error _ _ _ _ Hpre Hk) as Hr.
      unfold retried in Hr. simpl in Hr. congruence.
    + injection Hk as -> ->. rewrite length_app. simpl.
      split; [lia|]. auto.
  - pose proof (Forall_nth_error _ _ _ _ Hall Hk) as Hr.
    unfold retried in Hr. simpl in Hr. congruence.
Qed.

(** When every call asked for a retry, all [n] candidates were tried and
    the error is the exhaustion error. *)
Lemma scan_shape_exhausted (n : nat) st (r : bind_run GInetAddress OS) :
  scan_shape n st r ->
  (forall c, In c (run_calls r) -> retried c) ->
  List.length (run_calls r) = n /\ run_ret r = None /\
  run_error r = Some (port_exhaustion_error st).
Proof.
  intros [(pre & sa0 & E & _)
         |[(pre & sa0 & e0 & E & He0 & _)
          |(Hall & Hlen & Hret & Herr)]] Hc.
  - specialize (Hc (sa0, BindOk)). rewrite E in Hc.
    specialize (Hc ltac:(apply in_or_app; right; left; reflexivity)).
    discriminate Hc.
  - specialize (Hc (sa0, BindFailed (Some e0))). rewrite E in Hc.
    specialize (Hc ltac:(apply in_or_app; right; left; reflexivity)).
    unfold retried in Hc. simpl in Hc. congruence.
  - auto.
Qed.

(** The log holds what [g_socket_bind] answered, for the socket and the
    flag of the call. *)
Lemma scan_log_faithful (n : nat) socket address allow_reuse :
  forall st os c,
    In c (run_calls (scan n socket address allow_reuse st os)) ->
    exists os', snd (g_socket_bind os' socket (fst c) allow_reuse) = snd c.
Proof.
  induction n as [|n IH]; intros st os c; simpl; [intros []|].
  destruct (g_socket_bind os socket _ allow_reuse) as [os1 reply] eqn:Hcall.
  assert (Hhere : forall c',
    c' = ({| sock_address := address;
             sock_port := candidate_port (advance_offset st) |}, reply) ->
    exists os', snd (g_socket_bind os' socket (fst c') allow_reuse) = snd c').
  { intros c' ->. exists os. simpl. rewrite Hcall. reflexivity. }
  destruct reply as [|[e|]]; simpl.
  - intros [<-|[]]. apply Hhere. reflexivity.
  - destruct (is_address_in_use e); simpl.
    + intros [<-|Hin]; [apply Hhere; reflexivity | eapply IH; eassumption].
    + intros [<-|[]]. apply Hhere. reflexivity.
  - intros [<-|Hin]; [apply Hhere; reflexivity | eapply IH; eassumption].
Qed.

(** A scan that has a candidate left starts with a call for the port
    under the advanced cursor, and stops there when the call succeeds. *)
Lemma scan_first_call (n : nat) socket address allow_reuse st os :
  let target := {| sock_address := address;
                   sock_port := candidate_port (advance_offset st) |} in
  exists rest,
    run_calls (scan (S n) socket address allow_reuse st os)
    = (target, snd (g_socket_bind os socket target allow_reuse)) :: rest.
Proof.
  simpl. destruct (g_socket_bind os socket _ allow_reuse) as [os1 reply].
  destruct reply as [|[e|]]; simpl; try destruct (is_address_in_use e);
    simpl; eexists; reflexivity.
Qed.

Lemma scan_first_success (n : nat) socket address allow_reuse st os :
  let target := {| sock_address := address;
                   sock_port := candidate_port (advance_offset st) |} in
  snd (g_socket_bind os socket target allow_reuse) = BindOk ->
  scan (S n) socket address allow_reuse st os
  = {| run_range := advance_offset st;
       run_os := fst (g_socket_bind os socket target allow_reuse);
       run_ret := Some target; run_error := None;
       run_calls := [(target, BindOk)] |}.
Proof.
  simpl. destruct (g_socket_bind os socket _ allow_reuse) as [os1 reply].
  simpl. intros ->. reflexivity.
Qed.

Lemma scan_length_positive (st : port_range) :
  range_ok st -> exists n, scan_length st = S n.
Proof.
  intros Hok. pose proof (scan_length_ok st Hok) as H.
  destruct Hok as (H0 & H1 & H2 & H3). unfold range_size in H.
  destruct (scan_length st) as [|n]; [simpl in H; lia | eauto].
Qed.

(** *** The claims about [arv_socket_bind_with_range] *)

(** C4.  A call with [port != 0], and any call made while the range is
    disabled (minimum and maximum both 0), makes exactly one call of
    [g_socket_bind], for the given address and the requested port itself;
    the three variables are left as they were; on success the bound
    address is returned, on failure [NULL] is returned and the error of
    [g_socket_bind] is handed to the caller as it is. *)
Theorem bind_explicit_port_is_direct socket address port allow_reuse st os :
  port <> 0 \/ (arv_port_minimum st = 0 /\ arv_port_maximum st = 0) ->
  let target := {| sock_address := address; sock_port := port |} in
  let answer := g_socket_bind os socket target allow_reuse in
  let r := arv_socket_bind_with_range g_socket_bind socket address port allow_reuse st os in
  run_range r = st /\
  run_os r = fst answer /\
  run_calls r = [(target, snd answer)] /\
  (snd answer = BindOk -> run_ret r = Some target /\ run_error r = None) /\
  (forall e, snd answer = BindFailed e -> run_ret r = None /\ run_error r = e).
Proof.
  intros H target answer r. subst r.
  rewrite bind_takes_direct_branch by exact H.
  unfold bind_direct. fold target. fold answer.
  destruct answer as [os' reply]. simpl.
  split; [reflexivity|]. split; [reflexivity|]. split; [reflexivity|]. split.
  - intros ->. split; reflexivity.
  - intros e ->. split; reflexivity.
Qed.

(** C1.  After [arv_set_gv_port_range min max] with [min <= max], not both
    0, and after any further calls of the binder, a call with [port = 0]
    makes at most [max - min + 1] calls of [g_socket_bind]; the port of
    its [k]-th call is [min] plus the cursor advanced [k] times by
    [(offset + 1) mod (max - min + 1)] from where the earlier calls left
    it, and the cursor is left at the last port tried; an address it
    returns has its port within [min, max]. *)
Theorem bind_auto_port_within_range :
  forall (min max : Z) (st0 : port_range)
         (earlier : list (bind_request GSocket GInetAddress OS))
         socket address allow_reuse (os : OS),
    is_guint16 min -> is_guint16 max -> min <= max -> ~ (min = 0 /\ max = 0) ->
    let installed := arv_set_gv_port_range min max st0 in
    let before := bind_sequence g_socket_bind earlier (snd installed) in
    let r := arv_socket_bind_with_range g_socket_bind socket address 0 allow_reuse
               before os in
    fst installed = true /\
    arv_port_minimum before = min /\
    arv_port_maximum before = max /\
    0 <= arv_last_port_offset before <= max - min /\
    Z.of_nat (List.length (run_calls r)) <= max - min + 1 /\
    (forall k c, nth_error (run_calls r) k = Some c ->
       sock_address (fst c) = address /\
       sock_port (fst c) = candidate_port (Nat.iter (S k) advance_offset before) /\
       sock_port (fst c)
       = min + (arv_last_port_offset before + Z.of_nat (S k)) mod (max - min + 1) /\
       min <= sock_port (fst c) <= max) /\
    run_range r = Nat.iter (List.length (run_calls r)) advance_offset before /\
    (forall sa, run_ret r = Some sa ->
       sock_address sa = address /\ min <= sock_port sa <= max).
Proof.
  intros min max st0 earlier socket address allow_reuse os Hmin Hmax Hle Hen
         installed before r.
  assert (Hinst : installed = (true, {| arv_port_minimum := min; arv_port_maximum := max;
                                        arv_last_port_offset := max - min |}))
    by (apply set_gv_port_range_installs; assumption).
  assert (Hok1 : range_ok (snd installed))
    by (apply set_gv_port_range_ok; assumption).
  destruct (bind_sequence_preserves_range earlier (snd installed) Hok1)
    as (Hok & Bmin & Bmax).
  fold before in Hok, Bmin, Bmax.
  rewrite Hinst in Bmin, Bmax. simpl in Bmin, Bmax.
  assert (Hscan : r = scan (scan_length before) socket address allow_reuse
                        before os).
  { apply bind_takes_scan_branch. rewrite Bmin, Bmax. exact Hen. }
  pose proof (scan_cursor (scan_length before) socket address allow_reuse
                before os Hok) as Hpost.
  rewrite <- Hscan in Hpost.
  pose proof Hpost as (P1 & P2 & P3 & P4 & P5 & P6 & P7 & P8).
  pose proof (scan_length_ok _ Hok) as Hlen.
  assert (Hsize : range_size before = max - min + 1)
    by (unfold range_size; rewrite Bmin, Bmax; reflexivity).
  split; [rewrite Hinst; reflexivity|].
  split; [exact Bmin|]. split; [exact Bmax|].
  split; [destruct Hok as (_ & _ & _ & H3); rewrite Bmin, Bmax in H3; exact H3|].
  split; [lia|]. split; [|split].
  - intros k c Hk.
    pose proof (scan_post_nth_call _ _ _ _ _ _ Hpost Hk) as Hc.
    pose proof (nth_candidate_in_range before (S k) Hok) as Hin.
    rewrite Hc; simpl.
    split; [reflexivity|]. split; [apply nth_candidate_iter; exact Hok|].
    split; [unfold nth_candidate; rewrite Hsize, Bmin; reflexivity|].
    rewrite Bmin, Bmax in Hin. exact Hin.
  - destruct (iter_advance_offset before (List.length (run_calls r)) Hok)
      as (_ & I2 & I3 & I4).
    destruct (run_range r) as [a b c] eqn:Er.
    destruct (Nat.iter (List.length (run_calls r)) advance_offset before)
      as [a' b' c'] eqn:Ei.
    simpl in *. congruence.
  - intros sa Hsa. destruct (P8 sa Hsa) as (J1 & J2 & _).
    split; [exact J1|]. rewrite J2.
    pose proof (nth_candidate_in_range before (List.length (run_calls r)) Hok) as Hin.
    rewrite Bmin, Bmax in Hin. exact Hin.
Qed.

(** C3.  In a scan (a call with [port = 0] while a range is set): a call
    of [g_socket_bind] that fails with address-in-use is followed by a call
    for the next candidate, as long as a candidate is left; a call that
    fails with any other error is the last one, [NULL] is returned and
    that error is handed to the caller as it is; and when every candidate
    has been refused with address-in-use, [NULL] is returned with the
    error [ARV_NETWORK_ERROR_PORT_EXHAUSTION], whose message names the
    minimum and the maximum. *)
Theorem bind_scan_error_handling socket address allow_reuse st os :
  range_ok st ->
  ~ (arv_port_minimum st = 0 /\ arv_port_maximum st = 0) ->
  let r := arv_socket_bind_with_range g_socket_bind socket address 0 allow_reuse st os in
  let exhaustion :=
    {| domain := ARV_NETWORK_ERROR;
       code := ARV_NETWORK_ERROR_PORT_EXHAUSTION;
       message := ("No more available port in range [" ++ format_u (arv_port_minimum st)
                   ++ ".." ++ format_u (arv_port_maximum st) ++ "]")%string |} in
  (forall k sa e,
      nth_error (run_calls r) k = Some (sa, BindFailed (Some e)) ->
      is_address_in_use e = true ->
      Z.of_nat (S k) < range_size st ->
      exists sa' reply',
        nth_error (run_calls r) (S k) = Some (sa', reply') /\
        sock_address sa' = address /\
        sock_port sa'
        = arv_port_minimum st + (sock_port sa - arv_port_minimum st + 1) mod range_size st) /\
  (forall k sa e,
      nth_error (run_calls r) k = Some (sa, BindFailed (Some e)) ->
      is_address_in_use e = false ->
      List.length (run_calls r) = S k /\ run_ret r = None /\ run_error r = Some e) /\
  ((forall c, In c (run_calls r) -> reply_retries (snd c) = true) ->
   Z.of_nat (List.length (run_calls r)) = range_size st /\
   run_ret r = None /\ run_error r = Some exhaustion) /\
  ((forall os' sa,
       arv_port_minimum st <= sock_port sa <= arv_port_maximum st ->
       exists e, snd (g_socket_bind os' socket sa allow_reuse) = BindFailed (Some e) /\
                 is_address_in_use e = true) ->
   Z.of_nat (List.length (run_calls r)) = range_size st /\
   run_ret r = None /\ run_error r = Some exhaustion).
Proof.
  intros Hok Hen r exhaustion.
  assert (Hscan : r = scan (scan_length st) socket address allow_reuse st os)
    by (apply bind_takes_scan_branch; exact Hen).
  pose proof (scan_cursor (scan_length st) socket address allow_reuse st os Hok) as Hpost.
  pose proof (scan_has_shape (scan_length st) socket address allow_reuse st os) as Hshape.
  rewrite <- Hscan in Hpost, Hshape.
  pose proof (scan_length_ok st Hok) as Hlen.
  assert (Hexh : (forall c, In c (run_calls r) -> reply_retries (snd c) = true) ->
                 Z.of_nat (List.length (run_calls r)) = range_size st /\
                 run_ret r = None /\ run_error r = Some exhaustion).
  { intros Hall. destruct (scan_shape_exhausted _ _ _ Hshape Hall) as (E1 & E2 & E3).
    split; [rewrite E1; exact Hlen|]. split; [exact E2 | exact E3]. }
  split; [|split; [|split]].
  - intros k sa e Hk He Hleft.
    assert (Hnext : (S k < List.length (run_calls r))%nat).
    { eapply scan_shape_retry_goes_on; [exact Hshape | exact Hk | exact He | lia]. }
    destruct (nth_error (run_calls r) (S k)) as [[sa' reply']|] eqn:Hk';
      [|apply nth_error_None in Hk'; lia].
    exists sa', reply'. split; [reflexivity|].
    pose proof (scan_post_nth_call _ _ _ _ _ _ Hpost Hk) as Hc.
    pose proof (scan_post_nth_call _ _ _ _ _ _ Hpost Hk') as Hc'.
    simpl in Hc, Hc'. subst sa sa'. simpl. split; [reflexivity|].
    unfold nth_candidate. f_equal.
    replace (arv_port_minimum st
             + (arv_last_port_offset st + Z.of_nat (S k)) mod range_size st
             - arv_port_minimum st + 1)
      with ((arv_last_port_offset st + Z.of_nat (S k)) mod range_size st + 1) by lia.
    rewrite Zplus_mod_idemp_l. f_equal. lia.
  - intros k sa e Hk He.
    eapply scan_shape_other_error_aborts; eassumption.
  - exact Hexh.
  - intros Hos. apply Hexh. intros c Hc.
    assert (Hcr : In c (run_calls r)) by exact Hc.
    rewrite Hscan in Hc. apply scan_log_faithful in Hc. destruct Hc as [os' Hc].
    apply In_nth_error in Hcr. destruct Hcr as [k Hk].
    pose proof (scan_post_nth_call _ _ _ _ _ _ Hpost Hk) as Hfst.
    pose proof (nth_candidate_in_range st (S k) Hok) as Hin.
    destruct (Hos os' (fst c)) as [e [Hr He]].
    { rewrite Hfst. simpl. exact Hin. }
    rewrite <- Hc, Hr. simpl. exact He.
Qed.

(** C5.  [arv_set_gv_port_range min max] with [min > max] returns [FALSE]
    and leaves the three variables as they were; with [min <= max] it
    returns [TRUE], installs the bounds and sets the cursor to
    [max - min], so that the next scan makes its first call for the port
    [min]. *)
Theorem set_gv_port_range_spec (min max : Z) (st : port_range) :
  is_guint16 min -> is_guint16 max ->
  (min > max -> arv_set_gv_port_range min max st = (false, st)) /\
  (min <= max ->
   arv_set_gv_port_range min max st
   = (true, {| arv_port_minimum := min; arv_port_maximum := max;
               arv_last_port_offset := max - min |}) /\
   (~ (min = 0 /\ max = 0) ->
    forall socket address allow_reuse os,
      advance_offset (snd (arv_set_gv_port_range min max st))
      = {| arv_port_minimum := min; arv_port_maximum := max;
           arv_last_port_offset := 0 |} /\
      exists reply rest,
        run_calls (arv_socket_bind_with_range g_socket_bind socket address 0 allow_reuse
                     (snd (arv_set_gv_port_range min max st)) os)
        = ({| sock_address := address; sock_port := min |}, reply) :: rest)).
Proof.
  intros Hmin Hmax. split.
  - intros H. apply set_gv_port_range_rejects. lia.
  - intros Hle.
    pose proof (set_gv_port_range_installs min max st Hmin Hmax Hle) as Hinst.
    split; [exact Hinst|].
    intros Hen socket address allow_reuse os.
    pose proof (set_gv_port_range_ok min max st Hmin Hmax Hle) as Hok.
    rewrite Hinst in *. simpl snd in *.
    set (st1 := {| arv_port_minimum := min; arv_port_maximum := max;
                   arv_last_port_offset := max - min |}) in *.
    destruct (advance_offset_ok st1 Hok) as (A1 & A2 & A3 & A4 & _).
    assert (Hzero : (arv_last_port_offset st1 + 1) mod range_size st1 = 0).
    { unfold range_size, st1; simpl. apply Z_mod_same_full. }
    rewrite Hzero in A3, A4. split.
    + destruct (advance_offset st1) as [a b c]. simpl in *. subst. reflexivity.
    + rewrite bind_takes_scan_branch by (unfold st1; simpl; exact Hen).
      destruct (scan_length_positive st1 Hok) as [n ->].
      destruct (scan_first_call n socket address allow_reuse st1 os) as [rest Hrest].
      rewrite Hrest, A4. unfold st1 at 1. simpl arv_port_minimum.
      rewrite Z.add_0_r. eauto.
Qed.

(** C7.  After [arv_set_gv_port_range 9000 9002], when every call of
    [g_socket_bind] succeeds, three calls in a row with [port = 0] for the
    same address return the ports 9000, 9001 and 9002, each after a single
    call of [g_socket_bind].  In any state with a range set, a scan makes
    its first call for the port that follows the one the cursor was left
    on, and leaves the cursor on the last port it tried: the cursor is
    advanced before each call and is not reset between scans. *)
Theorem bind_round_robin_across_calls :
  (forall os s sa reuse, snd (g_socket_bind os s sa reuse) = BindOk) ->
  (forall st0 os1 os2 os3 s1 s2 s3 address reuse,
     let st := snd (arv_set_gv_port_range 9000 9002 st0) in
     let r1 := arv_socket_bind_with_range g_socket_bind s1 address 0 reuse st os1 in
     let r2 := arv_socket_bind_with_range g_socket_bind s2 address 0 reuse
                 (run_range r1) os2 in
     let r3 := arv_socket_bind_with_range g_socket_bind s3 address 0 reuse
                 (run_range r2) os3 in
     run_ret r1 = Some {| sock_address := address; sock_port := 9000 |} /\
     run_ret r2 = Some {| sock_address := address; sock_port := 9001 |} /\
     run_ret r3 = Some {| sock_address := address; sock_port := 9002 |} /\
     called_ports r1 = [9000] /\ called_ports r2 = [9001] /\ called_ports r3 = [9002] /\
     arv_last_port_offset (run_range r1) = 0 /\
     arv_last_port_offset (run_range r2) = 1 /\
     arv_last_port_offset (run_range r3) = 2) /\
  (forall st os socket address reuse,
     range_ok st -> ~ (arv_port_minimum st = 0 /\ arv_port_maximum st = 0) ->
     let r := arv_socket_bind_with_range g_socket_bind socket address 0 reuse st os in
     (exists c rest,
         run_calls r = c :: rest /\
         sock_port (fst c)
         = arv_port_minimum st + (arv_last_port_offset st + 1) mod range_size st) /\
     (forall c, nth_error (run_calls r) (List.length (run_calls r) - 1) = Some c ->
                sock_port (fst c)
                = arv_port_minimum (run_range r) + arv_last_port_offset (run_range r))).
Proof.
  intros Hfree. split.
  - intros st0 os1 os2 os3 s1 s2 s3 address reuse st r1 r2 r3.
    assert (Est : st = {| arv_port_minimum := 9000; arv_port_maximum := 9002;
                          arv_last_port_offset := 2 |}) by reflexivity.
    assert (E1 : r1 = {| run_range := {| arv_port_minimum := 9000; arv_port_maximum := 9002;
                                         arv_last_port_offset := 0 |};
                         run_os := run_os r1;
                         run_ret := Some {| sock_address := address; sock_port := 9000 |};
                         run_error := None;
                         run_calls := [({| sock_address := address; sock_port := 9000 |},
                                        BindOk)] |}).
    { subst r1. rewrite Est.
      rewrite bind_takes_scan_branch by (simpl; lia).
      change (scan_length _) with 3%nat.
      rewrite scan_first_success by apply Hfree. reflexivity. }
    assert (E2 : r2 = {| run_range := {| arv_port_minimum := 9000; arv_port_maximum := 9002;
                                         arv_last_port_offset := 1 |};
                         run_os := run_os r2;
                         run_ret := Some {| sock_address := address; sock_port := 9001 |};
                         run_error := None;
                         run_calls := [({| sock_address := address; sock_port := 9001 |},
                                        BindOk)] |}).
    { subst r2. rewrite E1. simpl run_range.
      rewrite bind_takes_scan_branch by (simpl; lia).
      change (scan_length _) with 3%nat.
      rewrite scan_first_success by apply Hfree. reflexivity. }
    assert (E3 : r3 = {| run_range := {| arv_port_minimum := 9000; arv_port_maximum := 9002;
                                         arv_last_port_offset := 2 |};
                         run_os := run_os r3;
                         run_ret := Some {| sock_address := address; sock_port := 9002 |};
                         run_error := None;
                         run_calls := [({| sock_address := address; sock_port := 9002 |},
                                        BindOk)] |}).
    { subst r3. rewrite E2. simpl run_range.
      rewrite bind_takes_scan_branch by (simpl; lia).
      change (scan_length _) with 3%nat.
      rewrite scan_first_success by apply Hfree. reflexivity. }
    rewrite E1, E2, E3. unfold called_ports. simpl. repeat split; reflexivity.
  - intros st os socket address reuse Hok Hen r.
    assert (Hscan : r = scan (scan_length st) socket address reuse st os)
      by (apply bind_takes_scan_branch; exact Hen).
    pose proof (scan_cursor (scan_length st) socket address reuse st os Hok) as Hpost.
    rewrite <- Hscan in Hpost.
    pose proof Hpost as (P1 & P2 & P3 & P4 & P5 & P6 & P7 & P8). split.
    + destruct (scan_length_positive st Hok) as [n Hn].
      rewrite Hn in Hscan.
      destruct (scan_first_call n socket address reuse st os) as [rest Hrest].
      rewrite <- Hscan in Hrest. eexists _, rest. split; [exact Hrest|]. simpl.
      destruct (advance_offset_ok st Hok) as (_ & _ & _ & A4 & _). exact A4.
    + intros c Hk.
      assert (Hlt : (List.length (run_calls r) - 1 < List.length (run_calls r))%nat)
        by (apply nth_error_Some; rewrite Hk; discriminate).
      pose proof (scan_post_nth_call _ _ _ _ _ _ Hpost Hk) as Hfst.
      rewrite Hfst. simpl sock_port. rewrite P2, P7. unfold nth_candidate.
      f_equal. f_equal. lia.
Qed.

End Binder.

(** ** The binder on the small operating system *)

(** Three automatic binds take the three ports in turn; a fourth finds
    them all in use and fails with the exhaustion error. *)
Example table_bind_fills_the_range :
  let b := fun st os => arv_socket_bind_with_range table_bind 1%nat tt 0 false st os in
  let r1 := b range_9000_9002 [] in
  let r2 := b (run_range r1) (run_os r1) in
  let r3 := b (run_range r2) (run_os r2) in
  let r4 := b (run_range r3) (run_os r3) in
  map returned_port [r1; r2; r3; r4] = [Some 9000; Some 9001; Some 9002; None] /\
  called_ports r4 = [9000; 9001; 9002] /\
  option_map message (run_error r4)
  = Some "No more available port in range [9000..9002]"%string.
Proof. repeat split; reflexivity. Qed.

(** A refusal that is not address-in-use stops the scan at once: the range
    80..90 lies below 1024. *)
Example table_bind_permission_denied :
  let r := arv_socket_bind_with_range table_bind 1%nat tt 0 false
             {| arv_port_minimum := 80; arv_port_maximum := 90;
                arv_last_port_offset := 3 |} [] in
  called_ports r = [84] /\ run_ret r = None /\ run_error r = Some permission_error.
Proof. repeat split; reflexivity. Qed.

Lemma bind_explicit_port_is_direct_witness :
  (12345 <> 0 \/
   (arv_port_minimum range_9000_9002 = 0 /\ arv_port_maximum range_9000_9002 = 0)) /\
  run_calls (arv_socket_bind_with_range table_bind 1%nat tt 12345 false range_9000_9002 [])
  = [({| sock_address := tt; sock_port := 12345 |}, BindOk)] /\
  run_range (arv_socket_bind_with_range table_bind 1%nat tt 12345 false range_9000_9002 [])
  = range_9000_9002.
Proof.
  assert (H : 12345 <> 0 \/
              (arv_port_minimum range_9000_9002 = 0 /\ arv_port_maximum range_9000_9002 = 0))
    by (left; discriminate).
  split; [exact H|].
  pose proof (bind_explicit_port_is_direct table_bind 1%nat tt 12345 false
                range_9000_9002 [] H) as (H1 & _ & H3 & _).
  split; [exact H3 | exact H1].
Defined.

Lemma bind_auto_port_within_range_witness :
  is_guint16 9000 /\ is_guint16 9002 /\ 9000 <= 9002 /\ ~ (9000 = 0 /\ 9002 = 0) /\
  let before := bind_sequence table_bind sample_requests
                  (snd (arv_set_gv_port_range 9000 9002 port_range_init)) in
  let r := arv_socket_bind_with_range table_bind 3%nat tt 0 false before [9000; 12345] in
  Z.of_nat (List.length (run_calls r)) <= 9002 - 9000 + 1 /\
  (forall sa, run_ret r = Some sa -> sock_address sa = tt /\ 9000 <= sock_port sa <= 9002).
Proof.
  assert (H1 : is_guint16 9000) by (unfold is_guint16; lia).
  assert (H2 : is_guint16 9002) by (unfold is_guint16; lia).
  assert (H3 : 9000 <= 9002) by lia.
  assert (H4 : ~ (9000 = 0 /\ 9002 = 0)) by lia.
  split; [exact H1|]. split; [exact H2|]. split; [exact H3|]. split; [exact H4|].
  pose proof (bind_auto_port_within_range table_bind 9000 9002 port_range_init
                sample_requests 3%nat tt false [9000; 12345] H1 H2 H3 H4)
    as (_ & _ & _ & _ & Hlen & _ & _ & Hret).
  split; [exact Hlen | exact Hret].
Defined.

Lemma bind_scan_error_handling_witness :
  range_ok range_9000_9001 /\
  ~ (arv_port_minimum range_9000_9001 = 0 /\ arv_port_maximum range_9000_9001 = 0) /\
  let r := arv_socket_bind_with_range table_bind 1%nat tt 0 false
             range_9000_9001 [9000; 9001] in
  called_ports r = [9000; 9001] /\
  run_ret r = None /\
  run_error r
  = Some {| domain := ARV_NETWORK_ERROR; code := ARV_NETWORK_ERROR_PORT_EXHAUSTION;
            message := "No more available port in range [9000..9001]"%string |}.
Proof.
  assert (H1 : range_ok range_9000_9001) by (unfold range_ok; simpl; lia).
  assert (H2 : ~ (arv_port_minimum range_9000_9001 = 0 /\
                  arv_port_maximum range_9000_9001 = 0)) by (simpl; lia).
  split; [exact H1|]. split; [exact H2|].
  pose proof (bind_scan_error_handling table_bind 1%nat tt false range_9000_9001
                [9000; 9001] H1 H2) as (_ & _ & Hexh & _).
  split; [reflexivity|].
  apply Hexh. intros c [<-|[<-|[]]]; reflexivity.
Defined.

Lemma set_gv_port_range_spec_witness :
  is_guint16 5 /\ is_guint16 3 /\
  arv_set_gv_port_range 5 3 range_9000_9002 = (false, range_9000_9002).
Proof.
  assert (H1 : is_guint16 5) by (unfold is_guint16; lia).
  assert (H2 : is_guint16 3) by (unfold is_guint16; lia).
  split; [exact H1|]. split; [exact H2|].
  apply (proj1 (set_gv_port_range_spec table_bind 5 3 range_9000_9002 H1 H2)). lia.
Defined.

Lemma bind_round_robin_across_calls_witness :
  (forall os s sa reuse, snd (free_bind os s sa reuse) = BindOk) /\
  let st := snd (arv_set_gv_port_range 9000 9002 port_range_init) in
  let r1 := arv_socket_bind_with_range free_bind 1%nat tt 0 false st tt in
  let r2 := arv_socket_bind_with_range free_bind 2%nat tt 0 false (run_range r1) tt in
  let r3 := arv_socket_bind_with_range free_bind 3%nat tt 0 false (run_range r2) tt in
  run_ret r1 = Some {| sock_address := tt; sock_port := 9000 |} /\
  run_ret r2 = Some {| sock_address := tt; sock_port := 9001 |} /\
  run_ret r3 = Some {| sock_address := tt; sock_port := 9002 |}.
Proof.
  assert (H : forall os s sa reuse, snd (free_bind os s sa reuse) = BindOk)
    by (intros; reflexivity).
  split; [exact H|].
  pose proof (proj1 (bind_round_robin_across_calls free_bind H)
                port_range_init tt tt tt 1%nat 2%nat 3%nat tt false)
    as (R1 & R2 & R3 & _).
  split; [exact R1|]. split; [exact R2 | exact R3].
Defined.

(** ** The range given as a string *)

Lemma string_is_empty_spec (s : string) :
  string_is_empty s = true <-> s = EmptyString.
Proof. destruct s; simpl; split; congruence. Qed.

Lemma append_empty_r (s : string) : (s ++ "")%string = s.
Proof. induction s as [|c s IH]; simpl; [reflexivity | rewrite IH; reflexivity]. Qed.


Lemma append_length (a b : string) :
  String.length (a ++ b) = (String.length a + String.length b)%nat.
Proof. induction a as [|x a IH]; simpl; [reflexivity | rewrite IH; reflexivity]. Qed.

Lemma split_at_app (n : nat) :
  forall s a b, split_at n s = (a, b) -> s = (a ++ b)%string.
Proof.
  induction n as [|n IH]; intros s a b; simpl.
  - intros [= <- <-]. reflexivity.
  - destruct s as [|c s]; [intros [= <- <-]; reflexivity|].
    destruct (split_at n s) as [a' b'] eqn:E. intros [= <- <-].
    simpl. rewrite <- (IH s a' b' E). reflexivity.
Qed.

(** A digit character is a non-empty front part of the subject. *)
Lemma match_digit_spec (T : regex_tables) (s c rest : string) :
  match_digit T s = Some (c, rest) ->
  s = (c ++ rest)%string /\ c <> EmptyString /\
  (String.length rest < String.length s)%nat.
Proof.
  unfold match_digit. destruct s as [|x s]; [discriminate|].
  destruct (is_digit x).
  - intros [= <- <-]. simpl. repeat split; [discriminate | lia].
  - destruct (is_ascii_char x); [discriminate|].
    destruct (nd_length T (String x s)) as [|n]; [discriminate|].
    cbn [split_at]. destruct (split_at n s) as [a b] eqn:E. intros [= <- <-].
    pose proof (split_at_app n s a b E) as ->.
    simpl. repeat split; [discriminate|]. rewrite append_length. lia.
Qed.


(** With the length of the subject as fuel the run is the longest one: no
    digit character follows it. *)
Lemma match_digits_stops (fuel : nat) (T : regex_tables) :
  forall s g after,
    (String.length s <= fuel)%nat ->
    match_digits fuel T s = (g, after) -> match_digit T after = None.
Proof.
  induction fuel as [|fuel IH]; intros s g after Hlen; simpl.
  - intros [= <- <-]. destruct s; [reflexivity | simpl in Hlen; lia].
  - destruct (match_digit T s) as [[c rest]|] eqn:Ec; [|intros [= <- <-]; exact Ec].
    destruct (match_digits fuel T rest) as [g' after'] eqn:E. intros [= <- <-].
    destruct (match_digit_spec T s c rest Ec) as (_ & _ & Hlt).
    apply (IH rest g' after'); [lia | exact E].
Qed.

(** A run of ASCII digits before something that is no digit character is
    taken whole. *)
Lemma match_digits_number (T : regex_tables) (a rest : string) :
  forall fuel,
    all_digits a = true -> match_digit T rest = None ->
    (String.length (a ++ rest) <= fuel)%nat ->
    match_digits fuel T (a ++ rest) = (a, rest).
Proof.
  induction a as [|c a IH]; intros fuel Ha Hrest Hlen.
  - simpl. destruct fuel; [reflexivity|]. simpl. rewrite Hrest. reflexivity.
  - cbn [all_digits] in Ha. apply andb_true_iff in Ha. destruct Ha as [Hc Ha].
    destruct fuel as [|fuel]; [simpl in Hlen; lia|].
    cbn [append match_digits match_digit]. rewrite Hc.
    rewrite (IH fuel Ha Hrest) by (simpl in Hlen; lia). reflexivity.
Qed.




(** A number, a dash, a number, and then nothing or a line feed, is
    accepted with the two numbers as groups, whatever the tables. *)
Lemma g_regex_match_range_accepts (T : regex_tables) (a b tail : string) :
  is_number a -> is_number b -> tail = EmptyString \/ tail = LF ->
  g_regex_match_range T (a ++ "-" ++ b ++ tail) = Some (a, b).
Proof.
  intros [Na Da] [Nb Db] Htail. unfold g_regex_match_range.
  assert (Hstop : match_digit T tail = None)
    by (destruct Htail as [-> | ->]; reflexivity).
  assert (Hdollar : matches_dollar T tail = true)
    by (destruct Htail as [-> | ->]; reflexivity).
  rewrite (match_digits_number T a ("-" ++ b ++ tail)) by (auto; reflexivity).
  destruct a as [|ca a]; [contradiction Na; reflexivity|].
  cbn [string_is_empty append].
  change (Ascii.eqb "-" "-") with true. cbv iota.
  rewrite (match_digits_number T b tail) by auto.
  destruct b as [|cb b]; [contradiction Nb; reflexivity|].
  cbn [string_is_empty]. rewrite Hdollar. reflexivity.
Qed.


Lemma strtoull_acc_nonneg (s : string) :
  forall acc, 0 <= acc -> 0 <= strtoull_acc s acc.
Proof.
  induction s as [|c s IH]; intros acc Hacc; cbn [strtoull_acc]; [exact Hacc|].
  destruct (is_digit c) eqn:Hc; [|exact Hacc].
  apply IH. unfold is_digit in Hc. apply andb_true_iff in Hc. destruct Hc as [Hlo _].
  apply Nat.leb_le in Hlo. unfold digit_value. lia.
Qed.

(** When both numbers written in the string are at most 65535, the parsed
    pair is the pair of numbers written. *)
Lemma parsed_pair_of_ports (T : regex_tables) (a b : string) :
  is_number a -> is_number b ->
  strtoull_acc a 0 <= 65535 -> strtoull_acc b 0 <= 65535 ->
  parsed_pair T (a ++ "-" ++ b) = Some (strtoull_acc a 0, strtoull_acc b 0).
Proof.
  intros Ha Hb La Lb. unfold parsed_pair.
  assert (E : g_regex_match_range T (a ++ "-" ++ b) = Some (a, b)).
  { rewrite <- (append_empty_r b) at 1.
    apply g_regex_match_range_accepts; auto. }
  rewrite E. unfold g_ascii_strtoull, G_MAXUINT64.
  pose proof (strtoull_acc_nonneg a 0 ltac:(lia)).
  pose proof (strtoull_acc_nonneg b 0 ltac:(lia)).
  rewrite !Z.min_l by lia.
  rewrite !guint16_small by lia. reflexivity.
Qed.

(** Numbers above 65535 are reduced modulo 65536 by the assignment to the
    [guint16] variables before they are compared and installed. *)
Example range_string_wraps_at_16_bits :
  parsed_pair ascii_tables "65536-5" = Some (0, 5) /\
  arv_set_gv_port_range_from_string ascii_tables (Some "65536-5"%string) range_9000_9002
  = (true, {| arv_port_minimum := 0; arv_port_maximum := 5; arv_last_port_offset := 5 |}) /\
  parsed_pair ascii_tables "70000-5" = Some (4464, 5) /\
  arv_set_gv_port_range_from_string ascii_tables (Some "70000-5"%string) range_9000_9002
  = (false, range_9000_9002).
Proof. repeat split; reflexivity. Qed.

(** With the sample tables: Arabic-Indic digits are digit characters, of
    which [g_ascii_strtoull] reads none, and a final CR LF is let through. *)
Example range_string_on_sample_tables :
  arv_set_gv_port_range_from_string sample_tables
    (Some (String "217" (String "161" (String "045" (String "217" (String "162" ""))))))
    range_9000_9002
  = (true, port_range_init) /\
  arv_set_gv_port_range_from_string sample_tables (Some ("100-200" ++ CR ++ LF)%string)
    range_9000_9002
  = arv_set_gv_port_range 100 200 range_9000_9002 /\
  arv_set_gv_port_range_from_string ascii_tables (Some ("100-200" ++ CR ++ LF)%string)
    range_9000_9002
  = (false, range_9000_9002).
Proof. repeat split; reflexivity. Qed.




(* ===================================================================== *)
(** * Part III. Further properties of the code                            *)
(* ===================================================================== *)

(** ** Enumeration and lookup *)

Lemma accepted_addr_spec (i : ifaddrs) (sa : sockaddr) :
  accepted_addr i = Some sa <->
  Z.land (ifa_flags i) IFF_UP <> 0 /\ ifa_addr i = Some sa /\ sa_family sa = AF_INET.
Proof.
  unfold accepted_addr.
  destruct (Z.eqb_spec (Z.land (ifa_flags i) IFF_UP) 0) as [E|E]; simpl.
  - split; [discriminate | intros [H _]; contradiction].
  - destruct (ifa_addr i) as [sa'|].
    + destruct (sa_family sa') eqn:F; simpl.
      * split; [intros [= ->]; auto | intros (_ & [= ->] & _); reflexivity].
      * split; [discriminate | intros (_ & [= ->] & F'); congruence].
      * split; [discriminate | intros (_ & [= ->] & F'); congruence].
    + split; [discriminate | intros (_ & H & _); discriminate].
Qed.

Lemma enumerate_names (build : posix_build) (ifap : list ifaddrs) :
  map name (arv_enumerate_network_interfaces build (Some ifap))
  = map ifa_name (filter is_accepted ifap).
Proof.
  rewrite enumerate_in_platform_order.
  induction ifap as [|i rest IH]; simpl; [reflexivity|].
  unfold descriptor_of at 1, is_accepted at 1.
  destruct (accepted_addr i); simpl; rewrite IH; reflexivity.
Qed.

Lemma enumerate_member_spec (build : posix_build) (getifaddrs : option (list ifaddrs))
  (a : ArvNetworkInterface) :
  In a (arv_enumerate_network_interfaces build getifaddrs) ->
  exists ifap i sa,
    getifaddrs = Some ifap /\ In i ifap /\
    Z.land (ifa_flags i) IFF_UP <> 0 /\ ifa_addr i = Some sa /\ sa_family sa = AF_INET /\
    addr a = Some sa /\ netmask a = ifa_netmask i /\ name a = ifa_name i.
Proof.
  intros Ha. destruct getifaddrs as [ifap|]; [|contradiction].
  rewrite enumerate_in_platform_order in Ha. apply in_flat_map in Ha.
  destruct Ha as [i [Hi Ha]]. unfold descriptor_of in Ha.
  destruct (accepted_addr i) as [sa|] eqn:Hacc; [|contradiction].
  destruct Ha as [<-|[]]. apply accepted_addr_spec in Hacc.
  destruct Hacc as (H1 & H2 & H3).
  exists ifap, i, sa. repeat split; assumption.
Qed.

(** X1.  The POSIX enumeration returns nothing when [getifaddrs] fails.
    Every descriptor it returns was made from a node that is up
    ([IFF_UP]), has an address, and whose address is IPv4; it carries that
    node's address, netmask and name.  The descriptors come in the order of
    the platform's list, one for each such node. *)
Theorem enumerate_only_up_ipv4 (build : posix_build) (getifaddrs : option (list ifaddrs)) :
  (getifaddrs = None -> arv_enumerate_network_interfaces build getifaddrs = []) /\
  (forall a, In a (arv_enumerate_network_interfaces build getifaddrs) ->
     exists ifap i sa,
       getifaddrs = Some ifap /\ In i ifap /\
       Z.land (ifa_flags i) IFF_UP <> 0 /\ ifa_addr i = Some sa /\ sa_family sa = AF_INET /\
       addr a = Some sa /\ netmask a = ifa_netmask i /\ name a = ifa_name i) /\
  (forall ifap, getifaddrs = Some ifap ->
     map name (arv_enumerate_network_interfaces build getifaddrs)
     = map ifa_name (filter is_accepted ifap) /\
     map addr (arv_enumerate_network_interfaces build getifaddrs)
     = map ifa_addr (filter is_accepted ifap) /\
     (List.length (arv_enumerate_network_interfaces build getifaddrs)
      <= List.length ifap)%nat).
Proof.
  split; [intros ->; reflexivity|]. split.
  - intros a Ha. apply (enumerate_member_spec build getifaddrs a Ha).
  - intros ifap ->. split; [apply enumerate_names|]. split.
    + rewrite enumerate_in_platform_order.
      induction ifap as [|i rest IH]; simpl; [reflexivity|].
      unfold descriptor_of at 1, is_accepted at 1.
      destruct (accepted_addr i) as [sa|] eqn:Hacc; simpl; rewrite IH; [|reflexivity].
      apply accepted_addr_spec in Hacc. destruct Hacc as (_ & -> & _). reflexivity.
    + rewrite <- (length_map name), enumerate_names, length_map.
      apply filter_length_le.
Qed.

(** X2.  On every descriptor the POSIX enumeration returns, the loopback
    test returns a boolean (it neither meets a [NULL] address nor reads
    outside the address), and that boolean says whether the leading byte of
    the address is 127; this needs the platform to give IPv4 addresses as 4
    bytes. *)
Theorem enumerated_interface_loopback_test (build : posix_build) (ifap : list ifaddrs) :
  (forall i sa, In i ifap -> ifa_addr i = Some sa -> sa_family sa = AF_INET ->
     exists b0 b1 b2 b3,
       sa_addr sa = [b0; b1; b2; b3] /\
       0 <= b0 < 256 /\ 0 <= b1 < 256 /\ 0 <= b2 < 256 /\ 0 <= b3 < 256) ->
  forall a, In a (arv_enumerate_network_interfaces build (Some ifap)) ->
    exists sa b0 rest,
      addr a = Some sa /\ sa_addr sa = b0 :: rest /\
      arv_network_interface_is_loopback (Some a) = Returns (b0 =? 127).
Proof.
  intros Hbytes a Ha.
  destruct (enumerate_member_spec build (Some ifap) a Ha)
    as (ifap' & i & sa & [= <-] & Hi & _ & Haddr & Hfam & Ha_addr & _).
  destruct (Hbytes i sa Hi Haddr Hfam) as (b0 & b1 & b2 & b3 & Hb & H0 & H1 & H2 & H3).
  exists sa, b0, [b1; b2; b3]. split; [exact Ha_addr|]. split; [exact Hb|].
  unfold arv_network_interface_is_loopback. rewrite Ha_addr, Hfam, Hb.
  apply is_loopback_in_leading_byte; lia.
Qed.

Lemma enumerated_interface_loopback_test_witness :
  In (enumerated_interface Build_other_POSIX sample_lo
        {| sa_len := 16; sa_family := AF_INET; sa_addr := [127; 0; 0; 1] |})
     (arv_enumerate_network_interfaces Build_other_POSIX (Some [sample_lo])) /\
  exists sa b0 rest,
    addr (enumerated_interface Build_other_POSIX sample_lo
            {| sa_len := 16; sa_family := AF_INET; sa_addr := [127; 0; 0; 1] |}) = Some sa /\
    sa_addr sa = b0 :: rest /\
    arv_network_interface_is_loopback
      (Some (enumerated_interface Build_other_POSIX sample_lo
               {| sa_len := 16; sa_family := AF_INET; sa_addr := [127; 0; 0; 1] |}))
    = Returns (b0 =? 127).
Proof.
  assert (Hin : In (enumerated_interface Build_other_POSIX sample_lo
                      {| sa_len := 16; sa_family := AF_INET; sa_addr := [127; 0; 0; 1] |})
                   (arv_enumerate_network_interfaces Build_other_POSIX (Some [sample_lo])))
    by (left; reflexivity).
  split; [exact Hin|].
  apply (enumerated_interface_loopback_test Build_other_POSIX [sample_lo]); [|exact Hin].
  intros i sa [<-|[]] [= <-] _.
  exists 127, 0, 0, 1. repeat split; lia.
Defined.

Lemma g_strcmp0_is_0_spec (a b : option string) :
  g_strcmp0_is_0 a b = true <-> a = b.
Proof.
  destruct a as [x|], b as [y|]; simpl; try (split; congruence).
  rewrite String.eqb_eq. split; congruence.
Qed.

(** The search returns the first node passing the test. *)
Lemma iface_search_spec (test : ArvNetworkInterface -> bool) (ifaces : list ArvNetworkInterface) :
  match iface_search test ifaces with
  | Some a =>
      exists before after,
        ifaces = before ++ a :: after /\ test a = true /\
        forall x, In x before -> test x = false
  | None => forall x, In x ifaces -> test x = false
  end.
Proof.
  induction ifaces as [|a rest IH]; simpl; [intros x []|].
  destruct (test a) eqn:Ha.
  - exists [], rest. split; [reflexivity|]. split; [exact Ha | intros x []].
  - destruct (iface_search test rest) as [b|].
    + destruct IH as (before & after & -> & Hb & Hbefore).
      exists (a :: before), after. split; [reflexivity|]. split; [exact Hb|].
      intros x [<-|Hx]; [exact Ha | apply Hbefore; exact Hx].
    + intros x [<-|Hx]; [exact Ha | apply IH; exact Hx].
Qed.

(** X3.  [arv_network_get_interface_by_name] returns the first descriptor of
    the enumeration, in platform order, whose name is the one asked for
    (a [NULL] name matches a descriptor without name), and returns [NULL]
    exactly when no descriptor has that name. *)
Theorem get_interface_by_name_first_match (build : posix_build)
  (getifaddrs : option (list ifaddrs)) (wanted : option string) :
  (forall a, arv_network_get_interface_by_name build getifaddrs wanted = Some a ->
     name a = wanted /\
     exists before after,
       arv_enumerate_network_interfaces build getifaddrs = before ++ a :: after /\
       forall x, In x before -> name x <> wanted) /\
  (arv_network_get_interface_by_name build getifaddrs wanted = None <->
   forall x, In x (arv_enumerate_network_interfaces build getifaddrs) -> name x <> wanted).
Proof.
  unfold arv_network_get_interface_by_name.
  set (ifaces := arv_enumerate_network_interfaces build getifaddrs).
  set (test := fun a => g_strcmp0_is_0 wanted (arv_network_interface_get_name a)).
  assert (Htest : forall x, test x = true <-> name x = wanted).
  { intros x. unfold test, arv_network_interface_get_name.
    rewrite g_strcmp0_is_0_spec. split; congruence. }
  assert (Hfalse : forall x, test x = false <-> name x <> wanted).
  { intros x. rewrite <- Htest. destruct (test x); split; congruence. }
  pose proof (iface_search_spec test ifaces) as Hs. cbv zeta. split.
  - intros a Ha. rewrite Ha in Hs.
    destruct Hs as (before & after & E & Ht & Hbefore).
    split; [apply Htest; exact Ht|].
    exists before, after. split; [exact E|].
    intros x Hx. apply Hfalse, Hbefore, Hx.
  - split.
    + intros Hn. rewrite Hn in Hs. intros x Hx. apply Hfalse, Hs, Hx.
    + intros Hall. destruct (iface_search test ifaces) as [a|]; [|reflexivity].
      destruct Hs as (before & after & E & Ht & _).
      exfalso. apply (Hall a); [rewrite E; apply in_elt | apply Htest; exact Ht].
Qed.

Lemma bytes_eqb_spec (a b : list Z) : bytes_eqb a b = true <-> a = b.
Proof.
  unfold bytes_eqb. destruct (list_eq_dec Z.eq_dec a b); split; congruence.
Qed.

Lemma sa_family_eqb_spec (f g : sa_family_t) : sa_family_eqb f g = true <-> f = g.
Proof.
  destruct f, g; simpl; try (split; congruence).
  rewrite Z.eqb_eq. split; congruence.
Qed.

(** X4.  [arv_network_get_interface_by_address] returns [NULL] for a string
    that is not an address literal.  A descriptor it returns is the first
    of the enumeration whose address is IPv4 with the 4 bytes of the parsed
    address; it returns [NULL] for a literal when no descriptor has that
    address. *)
Theorem get_interface_by_address_first_match
  (g_hostname_is_ip_address : string -> bool)
  (g_inet_socket_address_new_from_string : string -> option GInetAddressValue)
  (build : posix_build) (getifaddrs : option (list ifaddrs)) (literal : string) :
  let result := arv_network_get_interface_by_address g_hostname_is_ip_address
                  g_inet_socket_address_new_from_string build getifaddrs literal in
  let same_address := fun (iaddr : GInetAddressValue) (x : ArvNetworkInterface) =>
    exists sa, addr x = Some sa /\ sa_family sa = AF_INET /\
               inet_family iaddr = AF_INET /\ firstn 4 (sa_addr sa) = inet_bytes iaddr in
  (g_hostname_is_ip_address literal = false -> result = None) /\
  (g_inet_socket_address_new_from_string literal = None -> result = None) /\
  (forall a, result = Some a ->
     exists iaddr before after,
       g_hostname_is_ip_address literal = true /\
       g_inet_socket_address_new_from_string literal = Some iaddr /\
       same_address iaddr a /\
       arv_enumerate_network_interfaces build getifaddrs = before ++ a :: after /\
       forall x, In x before -> ~ same_address iaddr x) /\
  (forall iaddr,
     g_hostname_is_ip_address literal = true ->
     g_inet_socket_address_new_from_string literal = Some iaddr ->
     result = None ->
     forall x, In x (arv_enumerate_network_interfaces build getifaddrs) ->
               ~ same_address iaddr x).
Proof.
  intros result same_address. subst result.
  unfold arv_network_get_interface_by_address.
  set (ifaces := arv_enumerate_network_interfaces build getifaddrs).
  assert (Htest : forall iaddr x,
    g_inet_address_equal iaddr (inet_address_from_native (arv_network_interface_get_addr x))
    = true <-> same_address iaddr x).
  { intros iaddr x. unfold same_address, arv_network_interface_get_addr,
      inet_address_from_native, g_inet_address_equal.
    destruct (addr x) as [sa|]; [|split; [discriminate | intros (sa & H & _); discriminate]].
    destruct (sa_family sa) eqn:F;
      try (split; [discriminate | intros (sa' & [= <-] & F' & _); congruence]).
    simpl. rewrite andb_true_iff, sa_family_eqb_spec, bytes_eqb_spec. split.
    - intros [H1 H2]. exists sa. auto.
    - intros (sa' & [= <-] & _ & H1 & H2). auto. }
  assert (Hfalse : forall iaddr x,
    g_inet_address_equal iaddr (inet_address_from_native (arv_network_interface_get_addr x))
    = false <-> ~ same_address iaddr x).
  { intros iaddr x. rewrite <- Htest.
    destruct (g_inet_address_equal _ _); split; congruence. }
  split; [intros ->; reflexivity|]. split.
  { intros ->. destruct (g_hostname_is_ip_address literal); reflexivity. }
  destruct (g_hostname_is_ip_address literal); simpl; [|split; [discriminate|discriminate]].
  destruct (g_inet_socket_address_new_from_string literal) as [iaddr|];
    [|split; [discriminate|discriminate]].
  pose proof (iface_search_spec
    (fun a => g_inet_address_equal iaddr
                (inet_address_from_native (arv_network_interface_get_addr a))) ifaces) as Hs.
  split.
  - intros a Ha. rewrite Ha in Hs. destruct Hs as (before & after & E & Ht & Hbefore).
    exists iaddr, before, after. split; [reflexivity|]. split; [reflexivity|].
    split; [apply Htest; exact Ht|]. split; [exact E|].
    intros x Hx. apply Hfalse, Hbefore, Hx.
  - intros iaddr' _ [= <-] Hn. rewrite Hn in Hs.
    intros x Hx. apply Hfalse, Hs, Hx.
Qed.

(** ** The port range over whole runs, and what a scan tries *)

Lemma guint16_is_guint16 (x : Z) : is_guint16 (guint16 x).
Proof.
  unfold is_guint16, guint16.
  pose proof (Z.mod_pos_bound x (2 ^ 16) ltac:(reflexivity)) as H.
  change (2 ^ 16) with 65536 in *. lia.
Qed.

Lemma set_gv_port_range_keeps_ok (min max : Z) (st : port_range) :
  is_guint16 min -> is_guint16 max -> range_ok st ->
  range_ok (snd (arv_set_gv_port_range min max st)).
Proof.
  intros Hmin Hmax Hok. destruct (Z_le_gt_dec min max) as [Hle|Hgt].
  - apply set_gv_port_range_ok; assumption.
  - rewrite set_gv_port_range_rejects by lia. exact Hok.
Qed.

Lemma set_gv_port_range_from_string_keeps_ok
  (T : regex_tables) (range : option string) (st : port_range) :
  range_ok st -> range_ok (snd (arv_set_gv_port_range_from_string T range st)).
Proof.
  intros Hok. destruct range as [s|]; simpl; [|exact Hok].
  unfold set_range_from_match.
  destruct (g_regex_match_range T s) as [[g1 g2]|]; [|exact Hok].
  destruct (guint16 (g_ascii_strtoull g1) >? guint16 (g_ascii_strtoull g2)); [exact Hok|].
  apply set_gv_port_range_keeps_ok; [apply guint16_is_guint16 .. | exact Hok].
Qed.

Lemma nth_candidate_injective (st : port_range) (j k : nat) :
  range_ok st ->
  Z.of_nat j < range_size st + Z.of_nat k -> Z.of_nat k < range_size st + Z.of_nat j ->
  nth_candidate st j = nth_candidate st k -> j = k.
Proof.
  intros (H0 & H1 & H2 & H3) Hj Hk E. unfold nth_candidate, range_size in *.
  set (m := arv_port_maximum st - arv_port_minimum st + 1) in *.
  set (a := arv_last_port_offset st + Z.of_nat j) in *.
  set (b := arv_last_port_offset st + Z.of_nat k) in *.
  assert (Hm : 0 < m) by (unfold m; lia).
  assert (E' : a mod m = b mod m) by lia.
  pose proof (Z.div_mod a m ltac:(lia)) as Da.
  pose proof (Z.div_mod b m ltac:(lia)) as Db.
  rewrite E' in Da.
  assert (Hq : a / m = b / m) by nia.
  assert (a = b) by (rewrite Hq in Da; lia).
  unfold a, b in *. lia.
Qed.

Lemma candidates_NoDup (st : port_range) (n : nat) :
  range_ok st -> Z.of_nat n <= range_size st ->
  NoDup (map (nth_candidate st) (seq 1 n)).
Proof.
  intros Hok Hn. apply NoDup_map_NoDup_ForallPairs; [|apply seq_NoDup].
  intros j k Hj Hk E. apply in_seq in Hj. apply in_seq in Hk.
  apply (nth_candidate_injective st j k Hok); [lia | lia | exact E].
Qed.

Lemma range_ports_spec (st : port_range) (p : Z) :
  range_ok st ->
  (In p (range_ports st) <-> arv_port_minimum st <= p <= arv_port_maximum st).
Proof.
  intros (H0 & H1 & H2 & H3). unfold range_ports, range_size. rewrite in_map_iff. split.
  - intros (i & <- & Hi). apply in_seq in Hi. lia.
  - intros Hp. exists (Z.to_nat (p - arv_port_minimum st)). split; [lia|].
    apply in_seq. lia.
Qed.

Section BinderRuns.

Context {GSocket GInetAddress OS : Type}.
Variable g_socket_bind :
  OS -> GSocket -> @GSocketAddress GInetAddress -> bool -> OS * bind_reply.

Lemma registry_step_keeps_ok
  (T : regex_tables) (op : registry_op GSocket GInetAddress OS) (st : port_range) :
  registry_op_typed op -> range_ok st -> range_ok (registry_step g_socket_bind T op st).
Proof.
  intros Hop Hok. destruct op as [min max|range|rq]; simpl.
  - destruct Hop as [Hmin Hmax]. apply set_gv_port_range_keeps_ok; assumption.
  - apply set_gv_port_range_from_string_keeps_ok. exact Hok.
  - unfold bind_request_run. apply bind_preserves_range. exact Hok.
Qed.

(** X5.  Whatever sequence of calls of [arv_set_gv_port_range],
    [arv_set_gv_port_range_from_string] (with any string) and
    [arv_socket_bind_with_range] (with any port, on any operating system)
    the program makes, starting from the static initialisers, the three
    variables keep [0 <= minimum <= maximum <= 65535] and
    [0 <= last offset <= maximum - minimum]. *)
Theorem registry_invariant
  (T : regex_tables) (ops : list (registry_op GSocket GInetAddress OS)) :
  Forall registry_op_typed ops ->
  range_ok (registry_run g_socket_bind T ops port_range_init).
Proof.
  intros Hops. generalize range_ok_init. generalize port_range_init.
  induction Hops as [|op ops Hop _ IH]; intros st Hok; simpl; [exact Hok|].
  apply IH. apply registry_step_keeps_ok; assumption.
Qed.

(** X6.  After [arv_set_gv_port_range 0 0], and after
    [arv_set_gv_port_range_from_string "0-0"], the range is disabled: over
    any number of later binder calls the three variables stay 0, and every
    call, also one with [port = 0], makes one call of [g_socket_bind], for
    the requested port. *)
Theorem range_0_0_disables (T : regex_tables) (st : port_range) :
  snd (arv_set_gv_port_range 0 0 st) = port_range_init /\
  snd (arv_set_gv_port_range_from_string T (Some "0-0"%string) st) = port_range_init /\
  forall (earlier : list (bind_request GSocket GInetAddress OS))
         socket address port allow_reuse os,
    bind_sequence g_socket_bind earlier port_range_init = port_range_init /\
    let target := {| sock_address := address; sock_port := port |} in
    let r := arv_socket_bind_with_range g_socket_bind socket address port allow_reuse
               (bind_sequence g_socket_bind earlier port_range_init) os in
    run_calls r = [(target, snd (g_socket_bind os socket target allow_reuse))] /\
    run_range r = port_range_init.
Proof.
  split; [reflexivity|]. split; [reflexivity|].
  assert (Hdirect : forall socket address port allow_reuse os,
    let target := {| sock_address := address; sock_port := port |} in
    let r := arv_socket_bind_with_range g_socket_bind socket address port allow_reuse
               port_range_init os in
    run_calls r = [(target, snd (g_socket_bind os socket target allow_reuse))] /\
    run_range r = port_range_init).
  { intros socket address port allow_reuse os target r. subst r.
    rewrite bind_takes_direct_branch by (right; split; reflexivity).
    unfold bind_direct. fold target.
    destruct (g_socket_bind os socket target allow_reuse) as [os' reply].
    split; reflexivity. }
  assert (Hseq : forall earlier : list (bind_request GSocket GInetAddress OS),
    bind_sequence g_socket_bind earlier port_range_init = port_range_init).
  { induction earlier as [|rq rest IH]; simpl; [reflexivity|].
    unfold bind_request_run.
    destruct (Hdirect (rq_socket rq) (rq_address rq) (rq_port rq) (rq_allow_reuse rq)
                (rq_os rq)) as [_ ->]. exact IH. }
  intros earlier socket address port allow_reuse os.
  split; [apply Hseq|]. rewrite Hseq. apply Hdirect.
Qed.

Lemma scan_ports_distinct socket address allow_reuse st os :
  range_ok st ->
  ~ (arv_port_minimum st = 0 /\ arv_port_maximum st = 0) ->
  let r := arv_socket_bind_with_range g_socket_bind socket address 0 allow_reuse st os in
  NoDup (called_ports r) /\
  forall p, In p (called_ports r) -> arv_port_minimum st <= p <= arv_port_maximum st.
Proof.
  intros Hok Hen r.
  assert (Hscan : r = bind_scan g_socket_bind (scan_length st) socket address allow_reuse st os)
    by (apply bind_takes_scan_branch; exact Hen).
  pose proof (scan_cursor g_socket_bind (scan_length st) socket address allow_reuse st os Hok)
    as Hpost.
  rewrite <- Hscan in Hpost. destruct Hpost as (_ & _ & _ & P4 & P5 & _).
  pose proof (scan_length_ok st Hok) as Hlen.
  rewrite P5. split.
  - apply candidates_NoDup; [exact Hok | lia].
  - intros p Hp. apply in_map_iff in Hp. destruct Hp as (k & <- & _).
    apply nth_candidate_in_range. exact Hok.
Qed.

(** X7.  A scan never tries a port twice, and every port it tries lies in
    the range. *)
Theorem scan_tries_no_port_twice socket address allow_reuse st os :
  range_ok st ->
  ~ (arv_port_minimum st = 0 /\ arv_port_maximum st = 0) ->
  let r := arv_socket_bind_with_range g_socket_bind socket address 0 allow_reuse st os in
  NoDup (called_ports r) /\
  forall p, In p (called_ports r) -> arv_port_minimum st <= p <= arv_port_maximum st.
Proof. apply scan_ports_distinct. Qed.

(** X8.  A scan in which every call is refused with address-in-use has
    tried every port of the range, each exactly once, and leaves the cursor
    where it found it. *)
Theorem exhausted_scan_covers_range socket address allow_reuse st os :
  range_ok st ->
  ~ (arv_port_minimum st = 0 /\ arv_port_maximum st = 0) ->
  let r := arv_socket_bind_with_range g_socket_bind socket address 0 allow_reuse st os in
  (forall c, In c (run_calls r) -> reply_retries (snd c) = true) ->
  NoDup (called_ports r) /\
  (forall p, In p (called_ports r) <-> arv_port_minimum st <= p <= arv_port_maximum st) /\
  Z.of_nat (List.length (called_ports r)) = range_size st /\
  run_range r = st.
Proof.
  intros Hok Hen r Hall.
  assert (Hscan : r = bind_scan g_socket_bind (scan_length st) socket address allow_reuse st os)
    by (apply bind_takes_scan_branch; exact Hen).
  pose proof (scan_cursor g_socket_bind (scan_length st) socket address allow_reuse st os Hok)
    as Hpost.
  pose proof (scan_has_shape g_socket_bind (scan_length st) socket address allow_reuse st os)
    as Hshape.
  rewrite <- Hscan in Hpost, Hshape.
  destruct (scan_shape_exhausted _ _ _ Hshape Hall) as (Hcount & _ & _).
  destruct (scan_ports_distinct socket address allow_reuse st os Hok Hen) as [Hnd Hin].
  fold r in Hnd, Hin.
  pose proof (scan_length_ok st Hok) as Hlen.
  assert (Hlenp : List.length (called_ports r) = scan_length st)
    by (unfold called_ports; rewrite length_map; exact Hcount).
  split; [exact Hnd|]. split; [|split].
  - intros p. split; [apply Hin|]. intros Hp.
    apply (NoDup_length_incl Hnd (l' := range_ports st)).
    + unfold range_ports. rewrite length_map, length_seq, Hlenp. lia.
    + intros q Hq. apply range_ports_spec; [exact Hok | apply Hin; exact Hq].
    + apply range_ports_spec; assumption.
  - rewrite Hlenp. exact Hlen.
  - destruct Hpost as (_ & P2 & P3 & _ & _ & _ & P7 & _).
    rewrite Hcount, Hlen in P7.
    assert (Hback : arv_last_port_offset (run_range r) = arv_last_port_offset st).
    { rewrite P7. destruct Hok as (H0 & H1 & H2 & H3). unfold range_size in *.
      rewrite <- (Z.mul_1_l (arv_port_maximum st - arv_port_minimum st + 1)) at 1.
      rewrite Z.mod_add by lia. apply Z.mod_small. lia. }
    destruct (run_range r) as [a b c], st as [a' b' c']. simpl in *. congruence.
Qed.

(** X9.  In a scan, a call of [g_socket_bind] that succeeds is the last
    one, and its address is the one returned, so no port is left bound
    that the caller does not learn of; an address is returned only when
    the last call succeeded, and then no error is set; and when [NULL] is
    returned an error is always set. *)
Theorem scan_success_is_last_call socket address allow_reuse st os :
  ~ (arv_port_minimum st = 0 /\ arv_port_maximum st = 0) ->
  let r := arv_socket_bind_with_range g_socket_bind socket address 0 allow_reuse st os in
  (forall k sa, nth_error (run_calls r) k = Some (sa, BindOk) ->
     List.length (run_calls r) = S k /\ run_ret r = Some sa /\ run_error r = None) /\
  (forall sa, run_ret r = Some sa ->
     run_error r = None /\
     exists pre, run_calls r = pre ++ [(sa, BindOk)] /\
                 forall c, In c pre -> reply_retries (snd c) = true) /\
  (run_ret r = None -> exists e, run_error r = Some e).
Proof.
  intros Hen r.
  assert (Hscan : r = bind_scan g_socket_bind (scan_length st) socket address allow_reuse st os)
    by (apply bind_takes_scan_branch; exact Hen).
  pose proof (scan_has_shape g_socket_bind (scan_length st) socket address allow_reuse st os)
    as Hshape.
  rewrite <- Hscan in Hshape.
  destruct Hshape as [(pre & sa0 & E & Hpre & Hlen & Hret & Herr)
                     |[(pre & sa0 & e0 & E & He0 & Hpre & Hlen & Hret & Herr)
                      |(Hall & Hlen & Hret & Herr)]].
  - split; [|split].
    + intros k sa Hk. rewrite E in Hk. apply nth_error_snoc_cases in Hk.
      destruct Hk as [[_ Hk]|[-> Hk]].
      * pose proof (Forall_nth_error _ _ _ _ Hpre Hk) as Hr. discriminate Hr.
      * injection Hk as ->. rewrite E, length_app. simpl.
        split; [lia|]. split; assumption.
    + intros sa Hsa. rewrite Hret in Hsa. injection Hsa as <-.
      split; [exact Herr|]. exists pre. split; [exact E|].
      rewrite Forall_forall in Hpre. exact Hpre.
    + rewrite Hret. discriminate.
  - split; [|split].
    + intros k sa Hk. rewrite E in Hk. apply nth_error_snoc_cases in Hk.
      destruct Hk as [[_ Hk]|[_ Hk]]; [|discriminate Hk].
      pose proof (Forall_nth_error _ _ _ _ Hpre Hk) as Hr. discriminate Hr.
    + rewrite Hret. discriminate.
    + intros _. exists e0. exact Herr.
  - split; [|split].
    + intros k sa Hk.
      pose proof (Forall_nth_error _ _ _ _ Hall Hk) as Hr. discriminate Hr.
    + rewrite Hret. discriminate.
    + intros _. eexists. exact Herr.
Qed.

End BinderRuns.

(** ** The receive buffer *)

(** X10.  [arv_socket_set_recv_buffer_size] calls [setsockopt] once, with
    the size asked for, and never again with another size.  When that call
    fails it returns [FALSE] without calling [getsockopt]; otherwise it
    calls [getsockopt] once.  It returns [TRUE] exactly when both calls
    returned 0, [getsockopt] left [optlen] equal to
    [sizeof (buffer_size_reported)], and the size the kernel reports is at
    least the size asked for.  It stops at the [g_assert] exactly when both
    calls returned 0 and [optlen] differs from that size.  It returns
    [FALSE] in every other case: when one of the two calls did not return
    0, or when [optlen] is as expected and the size reported is below the
    size asked for. *)
Theorem recv_buffer_size_confirmed (Kernel : Type)
  (setsockopt_rcvbuf : Kernel -> Z -> Z -> Kernel * Z)
  (getsockopt_rcvbuf : Kernel -> Z -> Kernel * (Z * Z * Z))
  (socket_fd buffer_size : Z) (k : Kernel) :
  let r := arv_socket_set_recv_buffer_size setsockopt_rcvbuf getsockopt_rcvbuf
             socket_fd buffer_size k in
  let set := setsockopt_rcvbuf k socket_fd buffer_size in
  let get := getsockopt_rcvbuf (fst set) socket_fd in
  let result := fst (fst (snd get)) in
  let buffer_size_reported := snd (fst (snd get)) in
  let optlen := snd (snd get) in
  rb_setsockopt_calls r = [(socket_fd, buffer_size)] /\
  (snd set <> 0 ->
   rb_outcome r = RecvReturns false /\ rb_getsockopt_calls r = [] /\
   rb_kernel r = fst set) /\
  (snd set = 0 -> rb_getsockopt_calls r = [socket_fd] /\ rb_kernel r = fst get) /\
  (rb_outcome r = RecvReturns true <->
   snd set = 0 /\ result = 0 /\ optlen = sizeof_gint /\
   buffer_size <= buffer_size_reported) /\
  (rb_outcome r = RecvAssertFails <->
   snd set = 0 /\ result = 0 /\ optlen <> sizeof_gint) /\
  (rb_outcome r = RecvReturns false <->
   snd set <> 0 \/
   (snd set = 0 /\ result <> 0) \/
   (snd set = 0 /\ result = 0 /\ optlen = sizeof_gint /\
    buffer_size_reported < buffer_size)).
Proof.
  intros r set get result reported optlen. subst r result reported optlen.
  unfold arv_socket_set_recv_buffer_size.
  fold set. destruct set as [k1 result] eqn:Eset. simpl fst in *. simpl snd.
  destruct (Z.eqb_spec result 0) as [->|Hr]; simpl negb; cbv iota.
  - subst get. destruct (getsockopt_rcvbuf k1 socket_fd) as [k2 [[result2 reported] optlen]].
    simpl. split; [reflexivity|]. split; [intros H; contradiction H; reflexivity|].
    split; [intros _; split; reflexivity|].
    destruct (Z.eqb_spec result2 0) as [->|Hr2]; simpl.
    + destruct (Z.eqb_spec optlen sizeof_gint) as [->|Ho]; simpl.
      * destruct (Z.ltb_spec reported buffer_size) as [Hlt|Hge].
        -- split; [split; [discriminate | intros (_ & _ & _ & H'); lia]|].
           split; [split; [discriminate | intros (_ & _ & H'); contradiction H'; reflexivity]|].
           split; [intros _; right; right; repeat split; exact Hlt | reflexivity].
        -- split; [split; [intros _; repeat split; lia | reflexivity]|].
           split; [split; [discriminate | intros (_ & _ & H'); contradiction H'; reflexivity]|].
           split; [discriminate|].
           intros [H'|[(_ & H')|(_ & _ & _ & H')]];
             [contradiction H'; reflexivity | contradiction H'; reflexivity | lia].
      * split; [split; [discriminate | intros (_ & _ & H' & _); contradiction]|].
        split; [split; [intros _; repeat split; exact Ho | reflexivity]|].
        split; [discriminate|].
        intros [H'|[(_ & H')|(_ & _ & H' & _)]];
          [contradiction H'; reflexivity | contradiction H'; reflexivity | contradiction].
    + split; [split; [discriminate | intros (_ & H' & _); contradiction]|].
      split; [split; [discriminate | intros (_ & H' & _); contradiction]|].
      split; [intros _; right; left; split; [reflexivity | exact Hr2] | reflexivity].
  - simpl. split; [reflexivity|]. split; [intros _; repeat split|].
    split; [intros H; contradiction|].
    split; [split; [discriminate | intros (H' & _); contradiction]|].
    split; [split; [discriminate | intros (H' & _); contradiction]|].
    split; [intros _; left; exact Hr | reflexivity].
Qed.

(** A kernel whose [getsockopt] leaves another [optlen] stops the call at
    the assertion, whatever size it reports. *)
Example recv_buffer_size_assertion :
  rb_outcome (arv_socket_set_recv_buffer_size
                (fun (k : unit) (_ _ : Z) => (k, 0))
                (fun (k : unit) (_ : Z) => (k, (0, 400000, 8)))
                3 1000 tt) = RecvAssertFails /\
  rb_outcome (arv_socket_set_recv_buffer_size
                (fun (k : unit) (_ _ : Z) => (k, 0))
                (fun (k : unit) (_ : Z) => (k, (-1, 400000, 8)))
                3 1000 tt) = RecvReturns false.
Proof. split; reflexivity. Qed.

(** On the Linux-like kernel, a size is confirmed exactly when it is not
    negative and at most twice [rmem_max]. *)
Example recv_buffer_size_on_linux :
  rb_outcome (arv_socket_set_recv_buffer_size (linux_setsockopt 212992) linux_getsockopt
                3 400000 0) = RecvReturns true /\
  rb_outcome (arv_socket_set_recv_buffer_size (linux_setsockopt 212992) linux_getsockopt
                3 2000000 0) = RecvReturns false /\
  rb_outcome (arv_socket_set_recv_buffer_size (linux_setsockopt 212992) linux_getsockopt
                (-1) 1000 0) = RecvReturns false.
Proof. repeat split; reflexivity. Qed.

(** ** The Windows enumeration *)

Lemma byte_high_bits (x n : Z) : 0 <= x < 256 -> 8 <= n -> Z.testbit x n = false.
Proof.
  intros Hx Hn. rewrite <- (Z.mod_small x (2 ^ 8)) by (change (2 ^ 8) with 256; lia).
  apply Z.mod_pow2_bits_high. lia.
Qed.

Lemma testbit_255 (n : Z) : 0 <= n -> Z.testbit 255 n = (n <? 8).
Proof.
  intros Hn. change 255 with (Z.ones 8). rewrite Z.testbit_ones by lia.
  destruct (Z.leb_spec 0 n); [reflexivity | lia].
Qed.

(** One byte of [s_addr | ~mask]. *)
Lemma or_not_byte (a m : Z) :
  0 <= a < 256 -> 0 <= m < 256 ->
  let b := Z.lor a (Z.land (Z.lnot m) 255) in
  Z.land b m = Z.land a m /\ Z.lor b m = 255 /\ 0 <= b < 256.
Proof.
  intros Ha Hm b. subst b.
  assert (E1 : Z.land (Z.lor a (Z.land (Z.lnot m) 255)) m = Z.land a m).
  { apply Z.bits_inj'. intros n Hn.
    rewrite !Z.land_spec, Z.lor_spec, Z.land_spec, Z.lnot_spec by lia.
    destruct (Z.testbit a n), (Z.testbit m n), (Z.testbit 255 n); reflexivity. }
  assert (E2 : Z.lor (Z.lor a (Z.land (Z.lnot m) 255)) m = 255).
  { apply Z.bits_inj'. intros n Hn.
    rewrite !Z.lor_spec, Z.land_spec, Z.lnot_spec, testbit_255 by lia.
    destruct (Z.ltb_spec n 8).
    - destruct (Z.testbit a n), (Z.testbit m n); reflexivity.
    - rewrite (byte_high_bits a n), (byte_high_bits m n) by lia. reflexivity. }
  split; [exact E1|]. split; [exact E2|].
  assert (Hnn : 0 <= Z.lor a (Z.land (Z.lnot m) 255)).
  { apply Z.lor_nonneg. split; [lia|]. apply Z.land_nonneg. right; lia. }
  split; [exact Hnn|].
  assert (E3 : Z.land (Z.lor a (Z.land (Z.lnot m) 255)) 255
               = Z.lor a (Z.land (Z.lnot m) 255)).
  { apply Z.bits_inj'. intros n Hn.
    rewrite Z.land_spec, Z.lor_spec, Z.land_spec, testbit_255 by lia.
    destruct (Z.ltb_spec n 8).
    - rewrite !andb_true_r. reflexivity.
    - rewrite (byte_high_bits a n) by lia. rewrite !andb_false_r. reflexivity. }
  rewrite <- E3. change 255 with (Z.ones 8). rewrite Z.land_ones by lia.
  pose proof (Z.mod_pos_bound (Z.lor a (Z.land (Z.lnot m) (Z.ones 8))) (2 ^ 8)
                ltac:(reflexivity)) as Hb.
  change (2 ^ 8) with 256 in *. lia.
Qed.

Lemma or_not_bytes_length (a m : list Z) :
  List.length a = List.length m -> List.length (or_not_bytes a m) = List.length a.
Proof.
  intros H. unfold or_not_bytes. rewrite length_map, length_combine. lia.
Qed.

Lemma or_not_bytes_nth (a m : list Z) (i : nat) (ai mi : Z) :
  nth_error a i = Some ai -> nth_error m i = Some mi ->
  nth_error (or_not_bytes a m) i = Some (Z.lor ai (Z.land (Z.lnot mi) 255)).
Proof.
  revert m i. induction a as [|x a IH]; intros m i Ha Hm.
  - destruct i; discriminate.
  - destruct m as [|y m]; [destruct i; discriminate|].
    destruct i as [|i]; simpl in *.
    + injection Ha as ->. injection Hm as ->. reflexivity.
    + apply IH; assumption.
Qed.

Lemma htonl_bytes (x : Z) : List.length (htonl x) = 4%nat /\ Forall is_byte (htonl x).
Proof.
  split; [reflexivity|]. unfold htonl.
  assert (H : forall y, is_byte (Z.land y 255)).
  { intros y. unfold is_byte. change 255 with (Z.ones 8). rewrite Z.land_ones by lia.
    pose proof (Z.mod_pos_bound y (2 ^ 8) ltac:(reflexivity)) as Hb.
    change (2 ^ 8) with 256 in *. lia. }
  repeat constructor; apply H.
Qed.

(** X11.  On the Vista-and-later build the netmask is made from the prefix
    length alone: for a prefix length from 1 to 32 it is the 32-bit number
    with that many leading one bits, stored most significant byte first. *)
Theorem prefix_netmask_leading_ones (prefix_length : Z) :
  1 <= prefix_length <= 32 ->
  ntohl (prefix_netmask prefix_length) = Some (2 ^ 32 - 2 ^ (32 - prefix_length)) /\
  be_value (prefix_netmask prefix_length) = 2 ^ 32 - 2 ^ (32 - prefix_length) /\
  List.length (prefix_netmask prefix_length) = 4%nat /\
  Forall is_byte (prefix_netmask prefix_length).
Proof.
  intros Hp.
  split; [|split; [|apply htonl_bytes]].
  - assert (H : exists n, (n < 32)%nat /\ prefix_length = Z.of_nat n + 1).
    { exists (Z.to_nat (prefix_length - 1)). lia. }
    destruct H as (n & Hn & ->).
    do 32 (destruct n as [|n]; [reflexivity|]). lia.
  - assert (H : exists n, (n < 32)%nat /\ prefix_length = Z.of_nat n + 1).
    { exists (Z.to_nat (prefix_length - 1)). lia. }
    destruct H as (n & Hn & ->).
    do 32 (destruct n as [|n]; [reflexivity|]). lia.
Qed.

Lemma prefix_netmask_leading_ones_witness :
  1 <= 24 <= 32 /\ prefix_netmask 24 = [255; 255; 255; 0] /\
  be_value (prefix_netmask 24) = 2 ^ 32 - 2 ^ 8.
Proof.
  assert (H : 1 <= 24 <= 32) by lia.
  split; [exact H|]. split; [reflexivity|].
  apply (prefix_netmask_leading_ones 24 H).
Defined.

Lemma table_netmask_spec (table : list MIB_IPADDRROW) (s_addr : list Z) :
  match table_netmask table s_addr with
  | Some mask =>
      exists before row after,
        table = before ++ row :: after /\ dwAddr row = s_addr /\ dwMask row = mask /\
        forall r, In r before -> dwAddr r <> s_addr
  | None => forall r, In r table -> dwAddr r <> s_addr
  end.
Proof.
  induction table as [|row rows IH]; simpl; [intros r []|].
  destruct (bytes_eqb (dwAddr row) s_addr) eqn:E.
  - apply bytes_eqb_spec in E. exists [], row, rows.
    repeat split; try assumption. intros r [].
  - assert (Hne : dwAddr row <> s_addr).
    { intros H. apply bytes_eqb_spec in H. congruence. }
    destruct (table_netmask rows s_addr) as [mask|].
    + destruct IH as (before & r0 & after & -> & H1 & H2 & H3).
      exists (row :: before), r0, after. repeat split; try assumption.
      intros r [<-|Hr]; [exact Hne | apply H3; exact Hr].
    + intros r [<-|Hr]; [exact Hne | apply IH; exact Hr].
Qed.

Section WindowsProperties.

Context {PWCHAR System : Type}.
Variable wcstombs : PWCHAR -> option string.
Variable GetAdaptersAddresses :
  System -> Z -> System * (adapters_reply (list (IP_ADAPTER_ADDRESSES PWCHAR)) * Z).

Lemma unicast_loop_prepends build table (adapter : IP_ADAPTER_ADDRESSES PWCHAR) us :
  forall ret,
    unicast_loop wcstombs build table adapter us ret
    = rev (map (windows_interface wcstombs build table adapter)
               (filter (unicast_ok adapter) us)) ++ ret.
Proof.
  induction us as [|u us IH]; intros ret; simpl; [reflexivity|].
  destruct (unicast_ok adapter u); simpl; rewrite IH; [|reflexivity].
  rewrite <- app_assoc. reflexivity.
Qed.

Lemma adapter_loop_prepends build table (adapters : list (IP_ADAPTER_ADDRESSES PWCHAR)) :
  forall ret,
    adapter_loop wcstombs build table adapters ret
    = rev (flat_map (adapter_descriptors wcstombs build table) adapters) ++ ret.
Proof.
  induction adapters as [|adapter rest IH]; intros ret; simpl; [reflexivity|].
  rewrite IH, unicast_loop_prepends. unfold adapter_descriptors at 2.
  rewrite rev_app_distr, <- app_assoc. reflexivity.
Qed.

Lemma adapters_retry_calls (n : nat) :
  forall sys len,
    let '(_, final, lengths) := adapters_retry GetAdaptersAddresses n sys len in
    (List.length lengths <= n)%nat /\
    (n <> O -> hd_error lengths = Some len) /\
    (final = ERROR_BUFFER_OVERFLOW -> List.length lengths = n).
Proof.
  induction n as [|n IH]; intros sys len; simpl.
  - repeat split; [lia | intros H; contradiction].
  - destruct (GetAdaptersAddresses sys len) as [sys1 [reply len1]].
    destruct reply as [|adapters|code].
    + specialize (IH sys1 len1).
      destruct (adapters_retry GetAdaptersAddresses n sys1 len1) as [[sys2 final] lengths].
      destruct IH as (I1 & _ & I3). simpl.
      split; [lia|]. split; [reflexivity|]. intros H. rewrite (I3 H). reflexivity.
    + simpl. split; [lia|]. split; [reflexivity | discriminate].
    + simpl. split; [lia|]. split; [reflexivity | discriminate].
Qed.

(** X12.  The Windows enumeration calls [GetAdaptersAddresses] at least once
    and at most three times, first with a buffer of 15000 bytes and then
    with the length the call before left in [outBufLen].  The first reply
    that is not buffer-too-small ends the calls and decides the result: the
    descriptors of its adapters when it is a success, the empty list for any
    other reply, be it the first, the second or the third.  When all three
    calls report buffer-too-small the result is the empty list.  So a first
    call that succeeds or fails otherwise is the only one, and when every
    call reports buffer-too-small three calls are made. *)
Theorem windows_enumeration_retries (build : windows_build) (table : list MIB_IPADDRROW)
  (sys : System) :
  let run := arv_enumerate_network_interfaces_win32 wcstombs GetAdaptersAddresses
               build table sys in
  let lengths := snd run in
  let ifaces := snd (fst run) in
  let c1 := GetAdaptersAddresses sys 15000 in
  let c2 := GetAdaptersAddresses (fst c1) (snd (snd c1)) in
  let c3 := GetAdaptersAddresses (fst c2) (snd (snd c2)) in
  (1 <= List.length lengths <= 3)%nat /\
  hd_error lengths = Some 15000 /\
  (forall adapters, fst (snd (GetAdaptersAddresses sys 15000)) = ERROR_SUCCESS adapters ->
     lengths = [15000] /\
     ifaces = flat_map (adapter_descriptors wcstombs build table) adapters) /\
  (forall code, fst (snd (GetAdaptersAddresses sys 15000)) = ERROR_OTHER code ->
     lengths = [15000] /\ ifaces = []) /\
  ((forall sys' len, fst (snd (GetAdaptersAddresses sys' len)) = ERROR_BUFFER_OVERFLOW) ->
   List.length lengths = 3%nat /\ ifaces = []) /\
  (fst (snd c1) <> ERROR_BUFFER_OVERFLOW ->
   run = (fst c1, reply_descriptors wcstombs build table (fst (snd c1)), [15000])) /\
  (fst (snd c1) = ERROR_BUFFER_OVERFLOW -> fst (snd c2) <> ERROR_BUFFER_OVERFLOW ->
   run = (fst c2, reply_descriptors wcstombs build table (fst (snd c2)),
          [15000; snd (snd c1)])) /\
  (fst (snd c1) = ERROR_BUFFER_OVERFLOW -> fst (snd c2) = ERROR_BUFFER_OVERFLOW ->
   run = (fst c3, reply_descriptors wcstombs build table (fst (snd c3)),
          [15000; snd (snd c1); snd (snd c2)])) /\
  (forall code, fst (snd c1) = ERROR_BUFFER_OVERFLOW -> fst (snd c2) = ERROR_OTHER code ->
     ifaces = []) /\
  (forall code, fst (snd c1) = ERROR_BUFFER_OVERFLOW ->
     fst (snd c2) = ERROR_BUFFER_OVERFLOW -> fst (snd c3) = ERROR_OTHER code ->
     ifaces = []).
Proof.
  intros run lengths ifaces c1 c2 c3.
  assert (Hstop : forall n sys' len,
    fst (snd (GetAdaptersAddresses sys' len)) <> ERROR_BUFFER_OVERFLOW ->
    (let '(sys1, final, ls) := adapters_retry GetAdaptersAddresses (S n) sys' len in
     match final with
     | ERROR_SUCCESS pAddresses =>
         (sys1, rev (adapter_loop wcstombs build table pAddresses []), ls)
     | _ => (sys1, [], ls)
     end)
    = (fst (GetAdaptersAddresses sys' len),
       reply_descriptors wcstombs build table (fst (snd (GetAdaptersAddresses sys' len))),
       [len])).
  { intros n sys' len Hne. cbn [adapters_retry].
    destruct (GetAdaptersAddresses sys' len) as [sys1 [reply len1]].
    simpl in Hne |- *. destruct reply as [|adapters|code]; simpl.
    - contradiction Hne; reflexivity.
    - rewrite adapter_loop_prepends, app_nil_r, rev_involutive. reflexivity.
    - reflexivity. }
  assert (H1 : fst (snd c1) <> ERROR_BUFFER_OVERFLOW ->
    run = (fst c1, reply_descriptors wcstombs build table (fst (snd c1)), [15000])).
  { intros Hne. subst run. unfold arv_enumerate_network_interfaces_win32.
    apply (Hstop 2%nat sys 15000 Hne). }
  assert (H2 : fst (snd c1) = ERROR_BUFFER_OVERFLOW ->
    fst (snd c2) <> ERROR_BUFFER_OVERFLOW ->
    run = (fst c2, reply_descriptors wcstombs build table (fst (snd c2)),
           [15000; snd (snd c1)])).
  { intros Ho Hne. subst run. unfold arv_enumerate_network_interfaces_win32.
    cbn [adapters_retry]. fold c1.
    destruct c1 as [sys1 [reply1 len1]]. simpl in Ho, c2 |- *. subst reply1.
    fold c2. destruct c2 as [sys2 [reply2 len2]]. simpl in Hne |- *.
    destruct reply2 as [|adapters|code]; simpl.
    - contradiction Hne; reflexivity.
    - rewrite adapter_loop_prepends, app_nil_r, rev_involutive. reflexivity.
    - reflexivity. }
  assert (H3 : fst (snd c1) = ERROR_BUFFER_OVERFLOW ->
    fst (snd c2) = ERROR_BUFFER_OVERFLOW ->
    run = (fst c3, reply_descriptors wcstombs build table (fst (snd c3)),
           [15000; snd (snd c1); snd (snd c2)])).
  { intros Ho1 Ho2. subst run. unfold arv_enumerate_network_interfaces_win32.
    cbn [adapters_retry]. fold c1.
    destruct c1 as [sys1 [reply1 len1]]. simpl in Ho1, c2 |- *. subst reply1.
    fold c2. destruct c2 as [sys2 [reply2 len2]]. simpl in Ho2, c3 |- *. subst reply2.
    fold c3. destruct c3 as [sys3 [reply3 len3]]. simpl.
    destruct reply3 as [|adapters|code]; simpl; try reflexivity.
    rewrite adapter_loop_prepends, app_nil_r, rev_involutive. reflexivity. }
  assert (Hcases : fst (snd c1) <> ERROR_BUFFER_OVERFLOW \/
                   (fst (snd c1) = ERROR_BUFFER_OVERFLOW /\
                    fst (snd c2) <> ERROR_BUFFER_OVERFLOW) \/
                   (fst (snd c1) = ERROR_BUFFER_OVERFLOW /\
                    fst (snd c2) = ERROR_BUFFER_OVERFLOW)).
  { destruct (fst (snd c1)); [|left; discriminate ..].
    destruct (fst (snd c2)); [right; right; auto | right; left; split ..];
      try reflexivity; discriminate. }
  subst lengths ifaces.
  split; [|split; [|split; [|split; [|split; [|split; [|split; [|split; [|split]]]]]]]].
  - destruct Hcases as [H|[[Ha Hb]|[Ha Hb]]];
      [rewrite (H1 H) | rewrite (H2 Ha Hb) | rewrite (H3 Ha Hb)]; simpl; lia.
  - destruct Hcases as [H|[[Ha Hb]|[Ha Hb]]];
      [rewrite (H1 H) | rewrite (H2 Ha Hb) | rewrite (H3 Ha Hb)]; reflexivity.
  - intros adapters Hfirst. fold c1 in Hfirst.
    rewrite H1 by (rewrite Hfirst; discriminate). rewrite Hfirst. split; reflexivity.
  - intros code Hfirst. fold c1 in Hfirst.
    rewrite H1 by (rewrite Hfirst; discriminate). rewrite Hfirst. split; reflexivity.
  - intros Hover. rewrite H3 by apply Hover.
    unfold c3. rewrite Hover. split; reflexivity.
  - exact H1.
  - exact H2.
  - exact H3.
  - intros code Ho Hc. rewrite H2 by (try assumption; rewrite Hc; discriminate).
    rewrite Hc. reflexivity.
  - intros code Ho1 Ho2 Hc. rewrite (H3 Ho1 Ho2). rewrite Hc. reflexivity.
Qed.

(** X13.  Every descriptor the Windows loops make comes from a unicast
    address that is IPv4 on an adapter whose status is up; it has that
    address, a netmask and a broadcast address of the same family (neither
    is ever absent), and the converted friendly name of the adapter.  The
    descriptors come adapter by adapter, address by address, in the order of
    the platform's lists. *)
Theorem windows_descriptors (build : windows_build) (table : list MIB_IPADDRROW)
  (adapters : list (IP_ADAPTER_ADDRESSES PWCHAR)) :
  rev (adapter_loop wcstombs build table adapters [])
  = flat_map (adapter_descriptors wcstombs build table) adapters /\
  forall a, In a (rev (adapter_loop wcstombs build table adapters [])) ->
    exists adapter u mask bcast,
      In adapter adapters /\ In u (FirstUnicastAddress adapter) /\
      OperStatus adapter = IfOperStatusUp /\
      sa_family (Address_lpSockaddr u) = AF_INET /\
      addr a = Some (Address_lpSockaddr u) /\
      netmask a = Some mask /\ sa_family mask = AF_INET /\
      broadaddr a = Some bcast /\ sa_family bcast = AF_INET /\
      sa_addr bcast = or_not_bytes (sa_addr (Address_lpSockaddr u)) (sa_addr mask) /\
      name a = wcstombs (FriendlyName adapter).
Proof.
  assert (E : rev (adapter_loop wcstombs build table adapters [])
              = flat_map (adapter_descriptors wcstombs build table) adapters)
    by (rewrite adapter_loop_prepends, app_nil_r; apply rev_involutive).
  split; [exact E|]. rewrite E. intros a Ha.
  apply in_flat_map in Ha. destruct Ha as (adapter & Hadapter & Ha).
  unfold adapter_descriptors in Ha. apply in_map_iff in Ha.
  destruct Ha as (u & <- & Hu). apply filter_In in Hu. destruct Hu as [Hu Hok].
  unfold unicast_ok in Hok. apply andb_true_iff in Hok. destruct Hok as [Hup Hfam].
  apply Z.eqb_eq in Hup. apply sa_family_eqb_spec in Hfam.
  eexists adapter, u, _, _.
  split; [exact Hadapter|]. split; [exact Hu|]. split; [exact Hup|]. split; [exact Hfam|].
  unfold windows_interface; simpl.
  split; [reflexivity|]. split; [reflexivity|]. split; [exact Hfam|].
  split; [reflexivity|]. split; [exact Hfam|]. split; reflexivity.
Qed.

(** X14.  The broadcast address the Windows loops compute agrees with the
    interface's address on every bit the netmask has set and has every
    other bit set: byte by byte, [broadcast & mask = address & mask] and
    [broadcast | mask = 255]. *)
Theorem windows_broadcast_bits (build : windows_build) (table : list MIB_IPADDRROW)
  (adapter : IP_ADAPTER_ADDRESSES PWCHAR) (u : IP_ADAPTER_UNICAST_ADDRESS)
  (mask : list Z) :
  option_map sa_addr (netmask (windows_interface wcstombs build table adapter u)) = Some mask ->
  List.length (sa_addr (Address_lpSockaddr u)) = List.length mask ->
  Forall is_byte (sa_addr (Address_lpSockaddr u)) ->
  Forall is_byte mask ->
  exists bcast,
    option_map sa_addr (broadaddr (windows_interface wcstombs build table adapter u))
    = Some bcast /\
    List.length bcast = List.length mask /\
    forall i ai mi,
      nth_error (sa_addr (Address_lpSockaddr u)) i = Some ai ->
      nth_error mask i = Some mi ->
      exists bi, nth_error bcast i = Some bi /\
                 Z.land bi mi = Z.land ai mi /\ Z.lor bi mi = 255 /\ is_byte bi.
Proof.
  intros Hmask Hlen Ha Hm. unfold windows_interface in *. simpl in *.
  injection Hmask as Hmask. rewrite Hmask.
  eexists. split; [reflexivity|]. split.
  - rewrite or_not_bytes_length; assumption.
  - intros i ai mi Hai Hmi. eexists. split; [apply or_not_bytes_nth; eassumption|].
    apply or_not_byte.
    + apply (Forall_nth_error _ _ _ _ Ha Hai).
    + apply (Forall_nth_error _ _ _ _ Hm Hmi).
Qed.

(** X15.  On the build for Windows before Vista the netmask of a
    descriptor is the [dwMask] of the first row of the address table whose
    [dwAddr] is the descriptor's address, and 255.255.0.0 when the table
    has no such row. *)
Theorem windows_legacy_netmask (table : list MIB_IPADDRROW)
  (adapter : IP_ADAPTER_ADDRESSES PWCHAR) (u : IP_ADAPTER_UNICAST_ADDRESS) :
  let a := sa_addr (Address_lpSockaddr u) in
  let mask := option_map sa_addr
                (netmask (windows_interface wcstombs Build_pre_Vista table adapter u)) in
  (forall before row after,
     table = before ++ row :: after -> dwAddr row = a ->
     (forall r, In r before -> dwAddr r <> a) ->
     mask = Some (dwMask row)) /\
  ((forall r, In r table -> dwAddr r <> a) -> mask = Some [255; 255; 0; 0]).
Proof.
  intros a mask. subst mask. unfold windows_interface. simpl. fold a.
  unfold legacy_netmask. pose proof (table_netmask_spec table a) as Hs. split.
  - intros before row after -> Hrow Hbefore.
    destruct (table_netmask (before ++ row :: after) a) as [m|].
    + destruct Hs as (before' & row' & after' & E & H1 & H2 & H3).
      f_equal. rewrite <- H2.
      assert (Hsame : before = before' /\ row = row').
      { clear -E Hrow Hbefore H1 H3. revert before' E H3.
        induction before as [|x before IH]; intros before' E H3.
        - destruct before' as [|y before']; simpl in E.
          + injection E as -> _. auto.
          + injection E as -> _. exfalso. apply (H3 y); [left; reflexivity | exact Hrow].
        - destruct before' as [|y before']; simpl in E.
          + injection E as -> _. exfalso. apply (Hbefore row'); [left; reflexivity | exact H1].
          + injection E as -> E.
            destruct (IH (fun r Hr => Hbefore r (or_intror Hr)) before' E
                        (fun r Hr => H3 r (or_intror Hr))) as [-> ->]. auto. }
      destruct Hsame as [_ ->]. reflexivity.
    + exfalso. apply (Hs row); [apply in_elt | exact Hrow].
  - intros Hnone. destruct (table_netmask table a) as [m|]; [|reflexivity].
    destruct Hs as (before & row & after & -> & H1 & _).
    exfalso. apply (Hnone row); [apply in_elt | exact H1].
Qed.

End WindowsProperties.

(** On scripted systems: a failure after a buffer-too-small reply gives the
    empty list, a success after one or two such replies gives the
    descriptors of its adapters, and a fourth call is never made. *)
Example windows_enumeration_on_scripts :
  arv_enumerate_network_interfaces_win32 Some scripted_adapters Build_Vista_or_later []
    [(ERROR_BUFFER_OVERFLOW, 20000); (ERROR_OTHER 87, 20000);
     (ERROR_SUCCESS [sample_adapter], 20000)]
  = ([(ERROR_SUCCESS [sample_adapter], 20000)], [], [15000; 20000]) /\
  arv_enumerate_network_interfaces_win32 Some scripted_adapters Build_Vista_or_later []
    [(ERROR_BUFFER_OVERFLOW, 20000); (ERROR_BUFFER_OVERFLOW, 30000);
     (ERROR_SUCCESS [sample_adapter], 30000)]
  = ([], adapter_descriptors Some Build_Vista_or_later [] sample_adapter,
     [15000; 20000; 30000]) /\
  arv_enumerate_network_interfaces_win32 Some scripted_adapters Build_Vista_or_later []
    [(ERROR_BUFFER_OVERFLOW, 20000); (ERROR_BUFFER_OVERFLOW, 30000);
     (ERROR_BUFFER_OVERFLOW, 40000); (ERROR_SUCCESS [sample_adapter], 40000)]
  = ([(ERROR_SUCCESS [sample_adapter], 40000)], [], [15000; 20000; 30000]).
Proof. repeat split; reflexivity. Qed.

(** ** The camera facade *)

Lemma gint_small (x : Z) : is_gint x -> gint x = x.
Proof.
  unfold is_gint, gint. intros H.
  change (2 ^ 31) with 2147483648 in *. change (2 ^ 32) with 4294967296.
  rewrite Z.mod_small by lia. lia.
Qed.

Lemma table_device_keeps_features :
  device_keeps_features table_device_set table_device_get.
Proof.
  split.
  - intros d k v. unfold table_device_get, table_device_set.
    rewrite String.eqb_refl. reflexivity.
  - intros d k k' v Hne. unfold table_device_get, table_device_set.
    destruct (String.eqb_spec k k'); [contradiction | reflexivity].
Qed.

Section CameraProperties.

Context {ArvDevice : Type}.
Variable set_feature : ArvDevice -> string -> Z -> ArvDevice.
Variable get_feature : ArvDevice -> string -> Z.

(** X16.  On a device that keeps what is written to it,
    [arv_camera_get_region] after [arv_camera_set_region x y width height]
    with positive [width] and [height] reports 0 for x and y and [width]
    for both the width and the height: the [x], [y] and [height] arguments
    never reach the device, and ["Height"] is written with [width].  A
    feature other than ["Width"] and ["Height"] is left as it was. *)
Theorem camera_region_after_set (device : ArvDevice) (x y width height : Z) :
  device_keeps_features set_feature get_feature ->
  is_gint width -> 0 < width -> 0 < height ->
  let camera := arv_camera_set_region set_feature (Some device) x y width height in
  arv_camera_get_region get_feature camera all_locations
  = {| loc_x := Some 0; loc_y := Some 0;
       loc_width := Some width; loc_height := Some width |} /\
  (forall x' y' height', 0 < height' ->
     arv_camera_set_region set_feature (Some device) x' y' width height' = camera) /\
  (forall feature device', camera = Some device' ->
     feature <> "Width"%string -> feature <> "Height"%string ->
     get_feature device' feature = get_feature device feature).
Proof.
  intros [Hsame Hother] Hw Hwpos Hhpos camera. subst camera.
  unfold arv_camera_set_region.
  destruct (Z.gtb_spec width 0) as [_|]; [|lia].
  destruct (Z.gtb_spec height 0) as [_|]; [|lia].
  split; [|split].
  - unfold arv_camera_get_region, all_locations; simpl.
    rewrite Hsame. rewrite Hother by discriminate. rewrite Hsame.
    rewrite gint_small by exact Hw. reflexivity.
  - intros x' y' height' Hh'.
    destruct (Z.gtb_spec height' 0) as [_|]; [reflexivity | lia].
  - intros feature device' [= <-] Hw' Hh'.
    rewrite Hother by congruence. rewrite Hother by congruence. reflexivity.
Qed.

(** X17.  On a device that keeps what is written to it,
    [arv_camera_get_binning] after [arv_camera_set_binning dx dy] with
    positive [dx] and [dy] reports [dx] for both directions: the value of
    [dy] never reaches the device, and ["BinningVertical"] is written with
    [dx]. *)
Theorem camera_binning_after_set (device : ArvDevice) (dx dy : Z) :
  device_keeps_features set_feature get_feature ->
  is_gint dx -> 0 < dx -> 0 < dy ->
  let camera := arv_camera_set_binning set_feature (Some device) dx dy in
  arv_camera_get_binning get_feature camera (Some 0) (Some 0) = (Some dx, Some dx) /\
  (forall dy', 0 < dy' -> arv_camera_set_binning set_feature (Some device) dx dy' = camera).
Proof.
  intros [Hsame Hother] Hdx Hxpos Hypos camera. subst camera.
  unfold arv_camera_set_binning.
  destruct (Z.gtb_spec dx 0) as [_|]; [|lia].
  destruct (Z.gtb_spec dy 0) as [_|]; [|lia].
  split.
  - unfold arv_camera_get_binning; simpl.
    rewrite Hsame. rewrite Hother by discriminate. rewrite Hsame.
    rewrite gint_small by exact Hdx. reflexivity.
  - intros dy' Hdy'. destruct (Z.gtb_spec dy' 0) as [_|]; [reflexivity | lia].
Qed.

(** [arv_camera_set_region] writes nothing for a width and a height that
    are zero or negative; with an invalid camera neither function touches a
    device or an output location; a [NULL] output location stays [NULL]. *)
Lemma camera_region_guards (device : ArvDevice) (x y width height : Z)
  (out : region_locations) :
  (width <= 0 -> height <= 0 ->
   arv_camera_set_region set_feature (Some device) x y width height = Some device) /\
  (width <= 0 -> 0 < height ->
   arv_camera_set_region set_feature (Some device) x y width height
   = Some (set_feature device "Height"%string width)) /\
  arv_camera_set_region set_feature None x y width height = None /\
  arv_camera_get_region get_feature None out = out /\
  (loc_x (arv_camera_get_region get_feature (Some device) out) = None <-> loc_x out = None) /\
  (loc_width (arv_camera_get_region get_feature (Some device) out) = None
   <-> loc_width out = None).
Proof.
  unfold arv_camera_set_region. split; [|split; [|split; [|split; [|split]]]].
  - intros Hw Hh.
    destruct (Z.gtb_spec width 0); [lia|]. destruct (Z.gtb_spec height 0); [lia|].
    reflexivity.
  - intros Hw Hh.
    destruct (Z.gtb_spec width 0); [lia|]. destruct (Z.gtb_spec height 0); [|lia].
    reflexivity.
  - reflexivity.
  - reflexivity.
  - simpl. destruct (loc_x out); simpl; split; congruence.
  - simpl. destruct (loc_width out); simpl; split; congruence.
Qed.

End CameraProperties.

Lemma camera_region_after_set_witness :
  device_keeps_features table_device_set table_device_get /\
  is_gint 640 /\ 0 < 640 /\ 0 < 480 /\
  arv_camera_get_region table_device_get
    (arv_camera_set_region table_device_set (Some (fun _ => 0)) 10 20 640 480)
    all_locations
  = {| loc_x := Some 0; loc_y := Some 0; loc_width := Some 640; loc_height := Some 640 |}.
Proof.
  assert (H1 : is_gint 640) by (unfold is_gint; split; [discriminate | reflexivity]).
  assert (H2 : 0 < 640) by reflexivity.
  assert (H3 : 0 < 480) by reflexivity.
  split; [exact table_device_keeps_features|]. split; [exact H1|].
  split; [exact H2|]. split; [exact H3|].
  apply (camera_region_after_set table_device_set table_device_get (fun _ => 0)
           10 20 640 480 table_device_keeps_features H1 H2 H3).
Defined.

Lemma camera_binning_after_set_witness :
  device_keeps_features table_device_set table_device_get /\
  is_gint 2 /\ 0 < 2 /\ 0 < 4 /\
  arv_camera_get_binning table_device_get
    (arv_camera_set_binning table_device_set (Some (fun _ => 0)) 2 4) (Some 0) (Some 0)
  = (Some 2, Some 2).
Proof.
  assert (H1 : is_gint 2) by (unfold is_gint; split; [discriminate | reflexivity]).
  assert (H2 : 0 < 2) by reflexivity.
  assert (H3 : 0 < 4) by reflexivity.
  split; [exact table_device_keeps_features|]. split; [exact H1|].
  split; [exact H2|]. split; [exact H3|].
  apply (camera_binning_after_set table_device_set table_device_get (fun _ => 0)
           2 4 table_device_keeps_features H1 H2 H3).
Defined.

(** ** Ranges written as text *)

Lemma strtoull_acc_string_of_uint (d : Decimal.uint) :
  forall acc, strtoull_acc (NilEmpty.string_of_uint d) acc = uint_value d acc.
Proof.
  induction d; intros acc; cbn [NilEmpty.string_of_uint uint_value];
    try reflexivity;
    cbn [strtoull_acc]; change (is_digit _) with true; cbv iota; rewrite IHd;
    reflexivity.
Qed.

Lemma all_digits_string_of_uint (d : Decimal.uint) :
  all_digits (NilEmpty.string_of_uint d) = true.
Proof.
  induction d; cbn [NilEmpty.string_of_uint all_digits]; try reflexivity;
    change (is_digit _) with true; exact IHd.
Qed.

Lemma uint_value_of_uint_acc (d : Decimal.uint) :
  forall p, uint_value d (Z.pos p) = Z.pos (Pos.of_uint_acc d p).
Proof.
  induction d; intros p; cbn [uint_value Pos.of_uint_acc]; try reflexivity;
    rewrite <- IHd; f_equal; lia.
Qed.

Lemma uint_value_of_uint (d : Decimal.uint) :
  uint_value d 0 = Z.of_N (N.of_uint d).
Proof.
  unfold N.of_uint.
  induction d; cbn [uint_value Pos.of_uint]; try reflexivity;
    try exact IHd;
    cbn [Z.mul Z.add Z.of_N]; apply uint_value_of_uint_acc.
Qed.

Lemma format_u_parses_back (x : Z) :
  0 <= x -> is_number (format_u x) /\ strtoull_acc (format_u x) 0 = x.
Proof.
  intros Hx. unfold format_u. split; [split|].
  - intros E.
    assert (Hnil : N.to_uint (Z.to_N x) = Decimal.Nil).
    { destruct (N.to_uint (Z.to_N x)); try discriminate E. reflexivity. }
    destruct (Z.to_N x) as [|p]; [discriminate Hnil|].
    apply (DecimalPos.Unsigned.to_uint_nonnil p). exact Hnil.
  - apply all_digits_string_of_uint.
  - rewrite strtoull_acc_string_of_uint, uint_value_of_uint.
    rewrite DecimalN.Unsigned.of_to. lia.
Qed.

(** X18.  Every range [arv_set_gv_port_range] accepts can be given as text:
    for 16-bit [min] and [max], [arv_set_gv_port_range_from_string] on the
    decimal text [min-max] does what [arv_set_gv_port_range min max] does,
    also when [min > max], where both return [FALSE] and change nothing. *)
Theorem range_text_round_trip (T : regex_tables) (min max : Z) (st : port_range) :
  is_guint16 min -> is_guint16 max ->
  parsed_pair T (range_text min max) = Some (min, max) /\
  arv_set_gv_port_range_from_string T (Some (range_text min max)) st
  = arv_set_gv_port_range min max st.
Proof.
  intros Hmin Hmax. unfold is_guint16 in *.
  destruct (format_u_parses_back min ltac:(lia)) as [Nmin Vmin].
  destruct (format_u_parses_back max ltac:(lia)) as [Nmax Vmax].
  assert (Hp : parsed_pair T (range_text min max) = Some (min, max)).
  { unfold range_text. rewrite parsed_pair_of_ports by (try assumption; lia).
    rewrite Vmin, Vmax. reflexivity. }
  split; [exact Hp|].
  unfold parsed_pair in Hp. simpl.
  destruct (g_regex_match_range T (range_text min max)) as [[g1 g2]|]; [|discriminate].
  injection Hp as E1 E2. unfold set_range_from_match. rewrite E1, E2.
  destruct (Z.gtb_spec min max) as [Hgt|Hle]; [|reflexivity].
  symmetry. apply set_gv_port_range_rejects. lia.
Qed.

Lemma range_text_round_trip_witness :
  is_guint16 49152 /\ is_guint16 65535 /\
  range_text 49152 65535 = "49152-65535"%string /\
  arv_set_gv_port_range_from_string sample_tables (Some (range_text 49152 65535))
    port_range_init
  = arv_set_gv_port_range 49152 65535 port_range_init.
Proof.
  assert (H1 : is_guint16 49152) by (unfold is_guint16; lia).
  assert (H2 : is_guint16 65535) by (unfold is_guint16; lia).
  split; [exact H1|]. split; [exact H2|]. split; [reflexivity|].
  apply (range_text_round_trip sample_tables 49152 65535 port_range_init H1 H2).
Defined.

(** ** Runs on the sample data *)

Lemma registry_invariant_witness :
  Forall registry_op_typed sample_ops /\
  range_ok (registry_run table_bind sample_tables sample_ops port_range_init) /\
  registry_run table_bind sample_tables sample_ops port_range_init
  = {| arv_port_minimum := 9000; arv_port_maximum := 9002; arv_last_port_offset := 0 |}.
Proof.
  assert (H : Forall registry_op_typed sample_ops).
  { unfold sample_ops, registry_op_typed, is_guint16.
    repeat constructor; discriminate. }
  split; [exact H|]. split; [|reflexivity].
  apply (registry_invariant table_bind sample_tables sample_ops H).
Defined.

Lemma scan_tries_no_port_twice_witness :
  range_ok range_9000_9002 /\
  ~ (arv_port_minimum range_9000_9002 = 0 /\ arv_port_maximum range_9000_9002 = 0) /\
  NoDup (called_ports (arv_socket_bind_with_range table_bind 1%nat tt 0 false
                         range_9000_9002 [9000; 9001])) /\
  called_ports (arv_socket_bind_with_range table_bind 1%nat tt 0 false
                  range_9000_9002 [9000; 9001]) = [9000; 9001; 9002].
Proof.
  assert (H1 : range_ok range_9000_9002)
    by (unfold range_ok; simpl; repeat split; discriminate).
  assert (H2 : ~ (arv_port_minimum range_9000_9002 = 0 /\
                  arv_port_maximum range_9000_9002 = 0))
    by (intros [H _]; discriminate H).
  split; [exact H1|]. split; [exact H2|]. split; [|reflexivity].
  apply (scan_tries_no_port_twice table_bind 1%nat tt false range_9000_9002
           [9000; 9001] H1 H2).
Defined.

Lemma exhausted_scan_covers_range_witness :
  range_ok range_9000_9001 /\
  ~ (arv_port_minimum range_9000_9001 = 0 /\ arv_port_maximum range_9000_9001 = 0) /\
  (forall c, In c (run_calls (arv_socket_bind_with_range table_bind 1%nat tt 0 false
                                range_9000_9001 [9000; 9001])) ->
             reply_retries (snd c) = true) /\
  run_range (arv_socket_bind_with_range table_bind 1%nat tt 0 false
               range_9000_9001 [9000; 9001]) = range_9000_9001.
Proof.
  assert (H1 : range_ok range_9000_9001)
    by (unfold range_ok; simpl; repeat split; discriminate).
  assert (H2 : ~ (arv_port_minimum range_9000_9001 = 0 /\
                  arv_port_maximum range_9000_9001 = 0))
    by (intros [H _]; discriminate H).
  assert (H3 : forall c,
    In c (run_calls (arv_socket_bind_with_range table_bind 1%nat tt 0 false
                       range_9000_9001 [9000; 9001])) ->
    reply_retries (snd c) = true)
    by (intros c [<-|[<-|[]]]; reflexivity).
  split; [exact H1|]. split; [exact H2|]. split; [exact H3|].
  apply (exhausted_scan_covers_range table_bind 1%nat tt false range_9000_9001
           [9000; 9001] H1 H2 H3).
Defined.

Lemma scan_success_is_last_call_witness :
  ~ (arv_port_minimum range_9000_9002 = 0 /\ arv_port_maximum range_9000_9002 = 0) /\
  (run_ret (arv_socket_bind_with_range table_bind 1%nat tt 0 false
              range_9000_9002 [9000; 9001]) = None ->
   exists e, run_error (arv_socket_bind_with_range table_bind 1%nat tt 0 false
                          range_9000_9002 [9000; 9001]) = Some e) /\
  run_ret (arv_socket_bind_with_range table_bind 1%nat tt 0 false
             range_9000_9002 [9000; 9001])
  = Some {| sock_address := tt; sock_port := 9002 |}.
Proof.
  assert (H2 : ~ (arv_port_minimum range_9000_9002 = 0 /\
                  arv_port_maximum range_9000_9002 = 0))
    by (intros [H _]; discriminate H).
  split; [exact H2|]. split; [|reflexivity].
  apply (scan_success_is_last_call table_bind 1%nat tt false range_9000_9002
           [9000; 9001] H2).
Defined.

Lemma windows_broadcast_bits_witness :
  option_map sa_addr
    (netmask (windows_interface Some Build_Vista_or_later [] sample_adapter sample_unicast))
  = Some [255; 255; 255; 0] /\
  option_map sa_addr
    (broadaddr (windows_interface Some Build_Vista_or_later [] sample_adapter sample_unicast))
  = Some [192; 168; 1; 255] /\
  exists bcast,
    option_map sa_addr
      (broadaddr (windows_interface Some Build_Vista_or_later [] sample_adapter
                    sample_unicast)) = Some bcast /\
    List.length bcast = List.length [255; 255; 255; 0] /\
    forall i ai mi,
      nth_error (sa_addr (Address_lpSockaddr sample_unicast)) i = Some ai ->
      nth_error [255; 255; 255; 0] i = Some mi ->
      exists bi, nth_error bcast i = Some bi /\
                 Z.land bi mi = Z.land ai mi /\ Z.lor bi mi = 255 /\ is_byte bi.
Proof.
  split; [reflexivity|]. split; [reflexivity|].
  apply (windows_broadcast_bits Some Build_Vista_or_later [] sample_adapter sample_unicast
           [255; 255; 255; 0] eq_refl eq_refl).
  - unfold is_byte. repeat constructor; discriminate.
  - unfold is_byte. repeat constructor; discriminate.
Defined.

(** ** Automatic binds in a row *)

Section SuccessiveBinds.

Context {GSocket GInetAddress OS : Type}.
Variable g_socket_bind :
  OS -> GSocket -> @GSocketAddress GInetAddress -> bool -> OS * bind_reply.

Lemma sequence_returns_candidates
  (Hfree : forall os s sa reuse, snd (g_socket_bind os s sa reuse) = BindOk)
  (rqs : list (bind_request GSocket GInetAddress OS)) :
  forall st,
    range_ok st ->
    ~ (arv_port_minimum st = 0 /\ arv_port_maximum st = 0) ->
    Forall (fun rq => rq_port rq = 0) rqs ->
    sequence_returns g_socket_bind rqs st
    = map (fun j => Some (nth_candidate st j)) (seq 1 (List.length rqs)).
Proof.
  induction rqs as [|rq rqs IH]; intros st Hok Hen Hports; [reflexivity|].
  inversion Hports as [|rq' rqs' Hport Hrest]; subst.
  cbn [sequence_returns List.length seq map].
  unfold bind_request_run at 1 2. rewrite Hport.
  rewrite bind_takes_scan_branch by exact Hen.
  destruct (scan_length_positive st Hok) as [n ->].
  rewrite scan_first_success by apply Hfree.
  destruct (advance_offset_ok st Hok) as (Amin & Amax & _ & Aport & Aok).
  cbn [returned_port run_ret run_range sock_port]. f_equal.
  - rewrite Aport. reflexivity.
  - rewrite IH; [|exact Aok | rewrite Amin, Amax; exact Hen | exact Hrest].
    rewrite <- (seq_shift (List.length rqs) 1), map_map.
    apply map_ext. intros j. f_equal. apply nth_candidate_advance. exact Hok.
Qed.

(** X19.  When every call of [g_socket_bind] succeeds, automatic binds made
    one after another walk the range in a circle: the [j]-th call returns
    the port [min + (offset + j) mod (max - min + 1)].  No port is returned
    twice within [max - min + 1] calls, and [max - min + 1] calls return
    every port of the range. *)
Theorem successive_binds_walk_the_range
  (rqs : list (bind_request GSocket GInetAddress OS)) (st : port_range) :
  (forall os s sa reuse, snd (g_socket_bind os s sa reuse) = BindOk) ->
  range_ok st ->
  ~ (arv_port_minimum st = 0 /\ arv_port_maximum st = 0) ->
  Forall (fun rq => rq_port rq = 0) rqs ->
  sequence_returns g_socket_bind rqs st
  = map (fun j => Some (arv_port_minimum st
                        + (arv_last_port_offset st + Z.of_nat j) mod range_size st))
        (seq 1 (List.length rqs)) /\
  (Z.of_nat (List.length rqs) <= range_size st ->
   NoDup (sequence_returns g_socket_bind rqs st)) /\
  (Z.of_nat (List.length rqs) = range_size st ->
   forall p, arv_port_minimum st <= p <= arv_port_maximum st ->
             In (Some p) (sequence_returns g_socket_bind rqs st)).
Proof.
  intros Hfree Hok Hen Hports.
  pose proof (sequence_returns_candidates Hfree rqs st Hok Hen Hports) as E.
  split; [exact E|].
  assert (E' : sequence_returns g_socket_bind rqs st
               = map Some (map (nth_candidate st) (seq 1 (List.length rqs))))
    by (rewrite E, map_map; reflexivity).
  split.
  - intros Hlen. rewrite E'.
    apply NoDup_map_NoDup_ForallPairs; [|apply candidates_NoDup; assumption].
    intros x y _ _ H. congruence.
  - intros Hlen p Hp. rewrite E'. apply in_map.
    apply (NoDup_length_incl (l := map (nth_candidate st) (seq 1 (List.length rqs)))
             (l' := range_ports st)).
    + apply candidates_NoDup; [exact Hok | lia].
    + unfold range_ports. rewrite !length_map, !length_seq. lia.
    + intros q Hq. apply range_ports_spec; [exact Hok|].
      apply in_map_iff in Hq. destruct Hq as (j & <- & _).
      apply nth_candidate_in_range. exact Hok.
    + apply range_ports_spec; assumption.
Qed.

End SuccessiveBinds.

Lemma successive_binds_walk_the_range_witness :
  (forall os s sa reuse, snd (free_bind os s sa reuse) = BindOk) /\
  range_ok range_9000_9001 /\
  ~ (arv_port_minimum range_9000_9001 = 0 /\ arv_port_maximum range_9000_9001 = 0) /\
  sequence_returns free_bind
    [mk_bind_request 1%nat tt 0 false tt; mk_bind_request 2%nat tt 0 true tt;
     mk_bind_request 3%nat tt 0 false tt] range_9000_9001
  = [Some 9000; Some 9001; Some 9000].
Proof.
  assert (H0 : forall os s sa reuse, snd (free_bind os s sa reuse) = BindOk)
    by (intros; reflexivity).
  assert (H1 : range_ok range_9000_9001)
    by (unfold range_ok; simpl; repeat split; discriminate).
  assert (H2 : ~ (arv_port_minimum range_9000_9001 = 0 /\
                  arv_port_maximum range_9000_9001 = 0))
    by (intros [H _]; discriminate H).
  split; [exact H0|]. split; [exact H1|]. split; [exact H2|].
  apply (proj1 (successive_binds_walk_the_range free_bind
                  [mk_bind_request 1%nat tt 0 false tt; mk_bind_request 2%nat tt 0 true tt;
                   mk_bind_request 3%nat tt 0 false tt] range_9000_9001 H0 H1 H2
                  ltac:(repeat constructor))).
Defined.

(** ** The loopback test on IPv4 *)

(** X20.  For an interface with an IPv4 address of 4 bytes, the loopback
    test returns [TRUE] exactly when the leading byte is 127 (the network
    127.0.0.0/8) and [FALSE] otherwise, whatever the other three bytes, the
    netmask, the broadcast address and the name are. *)
Theorem loopback_test_ipv4 (a : ArvNetworkInterface) (sa : sockaddr) (b0 b1 b2 b3 : Z) :
  addr a = Some sa -> sa_family sa = AF_INET -> sa_addr sa = [b0; b1; b2; b3] ->
  is_byte b0 -> is_byte b1 -> is_byte b2 -> is_byte b3 ->
  (arv_network_interface_is_loopback (Some a) = Returns true <-> b0 = 127) /\
  (arv_network_interface_is_loopback (Some a) = Returns false <-> b0 <> 127).
Proof.
  unfold is_byte. intros Ha Hf Hb H0 H1 H2 H3.
  assert (E : arv_network_interface_is_loopback (Some a) = Returns (b0 =? 127)).
  { unfold arv_network_interface_is_loopback. rewrite Ha, Hf, Hb.
    apply is_loopback_in_leading_byte; lia. }
  rewrite E. destruct (Z.eqb_spec b0 127) as [->|Hne]; split; split;
    congruence.
Qed.

Lemma loopback_test_ipv4_witness :
  is_byte 127 /\ is_byte 255 /\
  arv_network_interface_is_loopback (Some (in_interface [127; 255; 255; 255]))
  = Returns true.
Proof.
  assert (H : is_byte 127) by (unfold is_byte; split; [discriminate | reflexivity]).
  assert (H' : is_byte 255) by (unfold is_byte; split; [discriminate | reflexivity]).
  split; [exact H|]. split; [exact H'|].
  apply (proj1 (loopback_test_ipv4 (in_interface [127; 255; 255; 255])
                  {| sa_len := 0; sa_family := AF_INET; sa_addr := [127; 255; 255; 255] |}
                  127 255 255 255 eq_refl eq_refl eq_refl H H' H' H')).
  reflexivity.
Defined.
